(** * The form-state engine of the Budibase client (InnerForm.svelte)

    A shallow embedding of the script block of
    [packages/client/src/components/app/forms/InnerForm.svelte]: the field
    registry, the field API factory, the derived stores and the step
    controller, followed by the properties of the engine that the
    specification states.

    Beside the engine, the handlers of the modal dialog content
    ([packages/bbui/src/Modal/ModalContent.svelte]) and the data providers
    of the "Save Row" action settings are embedded.

    Layout: JavaScript values and the built-ins the component calls, the
    collaborators it imports, the component state and its operations, and
    then the lemmas. *)

From Stdlib Require Import ZArith NArith List String Ascii Bool Lia.
From Stdlib Require Import Permutation Sorted DecimalString DecimalNat.
Import ListNotations.

Local Open Scope string_scope.
Local Open Scope Z_scope.

(** ** JavaScript values *)

(** Numbers are the integers and [NaN]; the component only counts steps and
    reads the clock, so fractions never arise. *)
Inductive number : Type :=
| Int (z : Z)
| NaN.

Set Warnings "-register-all".

(** Values are trees: objects keep their properties in insertion order, as
    the engine observes it through [Object.entries]. *)
Inductive val : Type :=
| VUndefined
| VNull
| VBool (b : bool)
| VNum (n : number)
| VStr (s : string)
| VArr (elems : list val)
| VObj (props : list (string * val)).

Definition obj : Type := list (string * val).

(** [!!v] *)
Definition truthy (v : val) : bool :=
  match v with
  | VUndefined | VNull => false
  | VBool b => b
  | VNum (Int z) => negb (z =? 0)
  | VNum NaN => false
  | VStr s => negb (s =? "")%string
  | VArr _ | VObj _ => true
  end.

(** [v == null] *)
Definition is_nullish (v : val) : bool :=
  match v with
  | VUndefined | VNull => true
  | _ => false
  end.

(** A value that is not an object: it has no properties to write, and what
    holds it cannot see it change. *)
Definition is_primitive (v : val) : bool :=
  match v with
  | VArr _ | VObj _ => false
  | _ => true
  end.

(** [a ?? b] *)
Definition nullish_coalesce (a b : val) : val :=
  if is_nullish a then b else a.

(** [a || b] *)
Definition js_or (a b : val) : val :=
  if truthy a then a else b.

(** A parameter with a default value: [undefined] selects the default. *)
Definition default_param (a d : val) : val :=
  match a with
  | VUndefined => d
  | _ => a
  end.

(** [a === b].  Two objects (or arrays) are strictly equal when they are the
    same reference; the tree model does not record references, so the caller
    says whether the two operands are one object ([same_ref]). *)
Definition strict_equals (same_ref : bool) (a b : val) : bool :=
  match a, b with
  | VUndefined, VUndefined => true
  | VNull, VNull => true
  | VBool x, VBool y => Bool.eqb x y
  | VNum (Int x), VNum (Int y) => x =? y
  | VNum _, VNum _ => false
  | VStr x, VStr y => (x =? y)%string
  | VArr _, VArr _ => same_ref
  | VObj _, VObj _ => same_ref
  | _, _ => false
  end.

(** An optional numeric argument as a value. *)
Definition val_of_number (n : option number) : val :=
  match n with
  | Some x => VNum x
  | None => VUndefined
  end.

(** [isNaN(n)] for a number or [undefined]. *)
Definition isNaN (n : option number) : bool :=
  match n with
  | Some (Int _) => false
  | _ => true
  end.

(** [step || 1] *)
Definition step_or_1 (step : Z) : Z :=
  if truthy (VNum (Int step)) then step else 1.

(** [Array.isArray(v)] *)
Definition Array_isArray (v : val) : bool :=
  match v with
  | VArr _ => true
  | _ => false
  end.

(** Own property lookup in a property list. *)
Fixpoint own (o : obj) (k : string) : option val :=
  match o with
  | [] => None
  | (k', v) :: r => if (k' =? k)%string then Some v else own r k
  end.

(** [o[k] = v] on a property list: an existing key keeps its place, a new
    key goes last. *)
Fixpoint obj_set (o : obj) (k : string) (v : val) : obj :=
  match o with
  | [] => [(k, v)]
  | (k', v') :: r =>
      if (k' =? k)%string then (k, v) :: r else (k', v') :: obj_set r k v
  end.

(** Canonical array-index keys: decimal, no leading zero, below 2^32 - 1. *)
Definition digit_of (c : ascii) : option N :=
  let n := N_of_ascii c in
  if ((48 <=? n) && (n <=? 57))%N then Some (n - 48)%N else None.

Fixpoint parse_digits (acc : N) (s : string) : option N :=
  match s with
  | EmptyString => Some acc
  | String c r =>
      match digit_of c with
      | Some d => parse_digits (acc * 10 + d)%N r
      | None => None
      end
  end.

Definition array_index (s : string) : option N :=
  match s with
  | EmptyString => None
  | String c r =>
      if (c =? "0")%char && negb (r =? "")%string then None
      else match parse_digits 0%N s with
           | Some n => if (n <? 4294967295)%N then Some n else None
           | None => None
           end
  end.

Definition is_index_key (s : string) : bool :=
  match array_index s with
  | Some _ => true
  | None => false
  end.

Definition index_of_key (s : string) : N :=
  match array_index s with
  | Some n => n
  | None => 0%N
  end.

(** Index keys are enumerated first, in ascending numeric order. *)
Fixpoint insert_index (e : string * val) (l : obj) : obj :=
  match l with
  | [] => [e]
  | e' :: r =>
      if (index_of_key (fst e) <? index_of_key (fst e'))%N
      then e :: e' :: r
      else e' :: insert_index e r
  end.

Definition sort_index (l : obj) : obj :=
  fold_right insert_index [] l.

(** The order in which the own keys of an ordinary object are enumerated:
    array indices ascending, then the other keys in insertion order. *)
Definition own_entries (o : obj) : obj :=
  (sort_index (filter (fun e => is_index_key (fst e)) o)
   ++ filter (fun e => negb (is_index_key (fst e))) o)%list.

Definition string_of_nat (n : nat) : string :=
  NilEmpty.string_of_uint (Nat.to_uint n).

Fixpoint indexed (i : nat) (l : list val) : obj :=
  match l with
  | [] => []
  | v :: r => (string_of_nat i, v) :: indexed (S i) r
  end.

Fixpoint chars_of (s : string) : list val :=
  match s with
  | EmptyString => []
  | String c r => VStr (String c EmptyString) :: chars_of r
  end.

(** [Object.entries(v)] *)
Definition Object_entries (v : val) : obj :=
  match v with
  | VObj o => own_entries o
  | VArr l => indexed 0 l
  | VStr s => indexed 0 (chars_of s)
  | _ => []
  end.

(** [Object.values(v)] *)
Definition Object_values (v : val) : list val :=
  map snd (Object_entries v).

(** [v[k]] for a [v] that is neither [null] nor [undefined].  Properties
    inherited from the prototypes (methods, [length]) are not part of the
    model: the engine reads field names, [url], [constraints] and
    [autocolumn] only. *)
Definition prop (v : val) (k : string) : val :=
  match v with
  | VObj o =>
      match own o k with
      | Some x => x
      | None => VUndefined
      end
  | VArr l =>
      match array_index k with
      | Some n => nth (N.to_nat n) l VUndefined
      | None => VUndefined
      end
  | VStr s =>
      match array_index k with
      | Some n => nth (N.to_nat n) (chars_of s) VUndefined
      | None => VUndefined
      end
  | _ => VUndefined
  end.

(** The own property [k] of [v], [None] when [v] has no such property. *)
Definition own_property (v : val) (k : string) : option val :=
  match v with
  | VObj o => own o k
  | _ => None
  end.

(** [v?.[k]] *)
Definition opt_prop (v : val) (k : string) : val :=
  if is_nullish v then VUndefined else prop v k.

(** Results of code that may throw. *)
Inductive result (A : Type) : Type :=
| Ok (a : A)
| TypeError.

Arguments Ok {A} a.
Arguments TypeError {A}.

(** [v[k]]: reading a property of [null] or [undefined] throws. *)
Definition get_member (v : val) (k : string) : result val :=
  if is_nullish v then TypeError else Ok (prop v k).

(** [Number(b)] for a boolean, as [Array.prototype.sort] converts what the
    comparison function returns. *)
Definition Number_of_bool (b : bool) : Z :=
  if b then 1 else 0.

(** [Array.prototype.sort(comparefn)] as V8 (Chrome, Node) runs it: a stable
    insertion into the sorted prefix in which an element moves in front of
    another only when [comparefn] answers a negative number.  The language
    fixes the outcome for consistent comparison functions only and leaves it
    to the engine otherwise.  The prefix is kept reversed, its last element
    first. *)
Fixpoint sort_insert {A : Type} (comparefn : A -> A -> Z) (pivot : A)
  (rev_prefix : list A) : list A :=
  match rev_prefix with
  | [] => [pivot]
  | y :: ys =>
      if comparefn pivot y <? 0
      then y :: sort_insert comparefn pivot ys
      else pivot :: y :: ys
  end.

Definition Array_sort {A : Type} (comparefn : A -> A -> Z) (l : list A)
  : list A :=
  rev (fold_left (fun acc x => sort_insert comparefn x acc) l []).

(** [Array.prototype.some] *)
Definition Array_some {A : Type} (p : A -> bool) (l : list A) : bool :=
  existsb p l.

(** ** Collaborators *)

(** The helpers of [@budibase/bbui] that the component imports.  [deepSet]
    mutates its first argument; here it returns the object after the
    mutation, or throws, as a write below a primitive does.  [deepSet]
    stores the value it is given by reference, so that in the source a
    later [deepSet] below it also changes the object a field holds; values
    here are trees without references, which gives the same form value but
    leaves that change of the field outside the model.  [uuid n] is the
    identifier handed out by the [n]-th call. *)
Class HelpersT : Type := {
  cloneDeep : val -> val;
  deepGet : val -> string -> val;
  deepSet : val -> string -> val -> result val;
  uuid : nat -> string
}.

(** What the component takes from its surroundings: the validator factory
    of [./validation] and the clock.  [Date_now n] is the answer of the
    [n]-th call of [Date.now()]. *)
Class EnvT : Type := {
  createValidatorFromConstraints : val -> val -> string -> val -> val -> val;
  Date_now : nat -> Z
}.

(** ** Component state *)

Module FieldState.
Record t : Type := mk {
  fieldId : string;
  value : val;
  error : val;
  disabled : bool;
  defaultValue : val;
  validator : option (val -> val);
  lastUpdate : Z
}.
End FieldState.

Module FieldInfo.
Record t : Type := mk {
  name : string;
  type : val;
  step : Z;
  fieldState : FieldState.t;
  fieldSchema : val
}.
End FieldInfo.

(** The exported properties of the component that the engine reads. *)
Module Props.
Record t : Type := mk {
  disabled : bool;
  initialValues : val;
  schema : val;
  table : val;
  disableValidation : bool
}.
End Props.

(** The state of one form: its properties, the [fields] array (each entry
    the content of one field store), the [currentStep] store, how many
    identifiers and clock readings have been drawn, and the calls made to
    field validators so far, oldest first. *)
Record Form : Type := mkForm {
  props : Props.t;
  fields : list FieldInfo.t;
  currentStep : Z;
  uuids : nat;
  ticks : nat;
  validatorCalls : list (string * val)
}.

Definition initialForm (p : Props.t) : Form :=
  mkForm p [] 1 0 0 [].

(** Computations over the form that may throw. *)
Definition M (A : Type) : Type := Form -> result (A * Form).

Definition ret {A : Type} (a : A) : M A :=
  fun st => Ok (a, st).

Definition bind {A B : Type} (c : M A) (k : A -> M B) : M B :=
  fun st =>
    match c st with
    | Ok (a, st') => k a st'
    | TypeError => TypeError
    end.

Definition throw {A : Type} : M A :=
  fun _ => TypeError.

Declare Scope form_scope.
Delimit Scope form_scope with form.
Notation "x <- c ;; k" := (bind c (fun x => k))
  (at level 61, c at next level, right associativity) : form_scope.
Notation "c ;;; k" := (bind c (fun _ => k))
  (at level 61, right associativity) : form_scope.
Local Open Scope form_scope.

Definition gets {A : Type} (f : Form -> A) : M A :=
  fun st => Ok (f st, st).

Definition modify (f : Form -> Form) : M unit :=
  fun st => Ok (tt, f st).

Definition set_fields (l : list FieldInfo.t) (st : Form) : Form :=
  mkForm (props st) l (currentStep st) (uuids st) (ticks st)
    (validatorCalls st).

Definition set_currentStep (n : Z) (st : Form) : Form :=
  mkForm (props st) (fields st) n (uuids st) (ticks st) (validatorCalls st).

Definition set_props (p : Props.t) (st : Form) : Form :=
  mkForm p (fields st) (currentStep st) (uuids st) (ticks st)
    (validatorCalls st).

Section Engine.

Context {H : HelpersT} {E : EnvT}.

(** [Helpers.uuid()] *)
Definition Helpers_uuid : M string :=
  fun st =>
    Ok (uuid (uuids st),
        mkForm (props st) (fields st) (currentStep st) (S (uuids st))
          (ticks st) (validatorCalls st)).

(** [Date.now()] *)
Definition now : M Z :=
  fun st =>
    Ok (Date_now (ticks st),
        mkForm (props st) (fields st) (currentStep st) (uuids st)
          (S (ticks st)) (validatorCalls st)).

(** [validator?.(value)] for the validator of field [field]; a call is
    recorded in [validatorCalls]. *)
Definition call_validator (field : string) (validator : option (val -> val))
  (value : val) : M val :=
  match validator with
  | None => ret VUndefined
  | Some v =>
      fun st =>
        Ok (v value,
            mkForm (props st) (fields st) (currentStep st) (uuids st)
              (ticks st) (validatorCalls st ++ [(field, value)])%list)
  end.

(** [fields.find(field => get(field).name === name)] *)
Definition getField (fs : list FieldInfo.t) (name : string)
  : option FieldInfo.t :=
  find (fun f => (FieldInfo.name f =? name)%string) fs.

(** [get(store)] of what [getField] found: reading [undefined] as a store
    throws. *)
Definition get_store (name : string) : M FieldInfo.t :=
  fun st =>
    match getField (fields st) name with
    | Some f => Ok (f, st)
    | None => TypeError
    end.

(** [fieldInfo.update(state => ...)] on the store that [getField] finds. *)
Fixpoint update_store (name : string)
  (g : FieldState.t -> FieldState.t) (fs : list FieldInfo.t)
  : list FieldInfo.t :=
  match fs with
  | [] => []
  | f :: r =>
      if (FieldInfo.name f =? name)%string
      then FieldInfo.mk (FieldInfo.name f) (FieldInfo.type f)
             (FieldInfo.step f) (g (FieldInfo.fieldState f))
             (FieldInfo.fieldSchema f) :: r
      else f :: update_store name g r
  end.

Definition update (name : string) (g : FieldState.t -> FieldState.t)
  : M unit :=
  modify (fun st => set_fields (update_store name g (fields st)) st).

(** What the validator of a field answers on the value the field holds,
    as [validator?.(value)] evaluates it. *)
Definition run_validator (f : FieldInfo.t) : val :=
  match FieldState.validator (FieldInfo.fieldState f) with
  | Some v => v (FieldState.value (FieldInfo.fieldState f))
  | None => VUndefined
  end.

(** The call that this evaluation records, if the field has a validator. *)
Definition validator_call (f : FieldInfo.t) : list (string * val) :=
  match FieldState.validator (FieldInfo.fieldState f) with
  | Some _ => [(FieldInfo.name f, FieldState.value (FieldInfo.fieldState f))]
  | None => []
  end.

(** *** Derived stores *)

Definition deriveFieldProperty (fieldValues : list FieldInfo.t)
  (getProp : FieldInfo.t -> val) : val :=
  VObj (fold_left
          (fun map field => obj_set map (FieldInfo.name field) (getProp field))
          fieldValues []).

Definition values (fs : list FieldInfo.t) : val :=
  deriveFieldProperty fs (fun f => FieldState.value (FieldInfo.fieldState f)).

Definition errors (fs : list FieldInfo.t) : val :=
  deriveFieldProperty fs (fun f => FieldState.error (FieldInfo.fieldState f)).

Definition valid (fs : list FieldInfo.t) : bool :=
  negb (Array_some (fun error => negb (is_nullish error))
          (Object_values (errors fs))).

Definition currentStepValid (st : Form) : bool :=
  negb (Array_some
          (fun f => negb (is_nullish (FieldState.error (FieldInfo.fieldState f))))
          (filter (fun f => FieldInfo.step f =? currentStep st) (fields st))).

(** [field.type === "attachment"] *)
Definition is_attachment (field : FieldInfo.t) : bool :=
  strict_equals false (FieldInfo.type field) (VStr "attachment").

(** The [url] that [deriveBindingEnrichments] computes for one field value. *)
Definition first_url (value : val) : val :=
  if Array_isArray value && negb (is_nullish (prop value "0"))
  then prop (prop value "0") "url"
  else VNull.

Definition deriveBindingEnrichments (fieldValues : list FieldInfo.t) : val :=
  VObj (fold_left
          (fun enrichments field =>
             if is_attachment field
             then obj_set enrichments (FieldInfo.name field ++ "_first")
                    (first_url (FieldState.value (FieldInfo.fieldState field)))
             else enrichments)
          fieldValues []).

Definition enrichments (fs : list FieldInfo.t) : val :=
  deriveBindingEnrichments fs.

Record SortedField : Type := mkSortedField {
  key : string;
  sf_value : val;
  sf_lastUpdate : Z
}.

(** [lastUpdate || 0] *)
Definition or_zero (n : Z) : Z :=
  if n =? 0 then 0 else n.

(** The [.map(...)] step of [deriveFormValue]: [get(field)] throws when no
    field has the key. *)
Fixpoint with_lastUpdate (fs : list FieldInfo.t) (entries : obj)
  : result (list SortedField) :=
  match entries with
  | [] => Ok []
  | (k, v) :: r =>
      match getField fs k with
      | None => TypeError
      | Some field =>
          match with_lastUpdate fs r with
          | TypeError => TypeError
          | Ok l =>
              Ok (mkSortedField k v
                    (or_zero (FieldState.lastUpdate (FieldInfo.fieldState field)))
                  :: l)
          end
      end
  end.

(** The comparison function handed to [sort]: a boolean, which [sort]
    converts to 1 or 0. *)
Definition compare_lastUpdate (a b : SortedField) : Z :=
  Number_of_bool (sf_lastUpdate a >? sf_lastUpdate b).

(** The [forEach] loops of [deriveFormValue]: they stop at the first
    [deepSet] that throws. *)
Definition deepSet_all (formValue : val) (entries : obj) : result val :=
  fold_left
    (fun acc e =>
       match acc with
       | Ok fv => deepSet fv (fst e) (snd e)
       | TypeError => TypeError
       end)
    entries (Ok formValue).

Definition deriveFormValue (fs : list FieldInfo.t)
  (initialValues values enrichments : val) : result val :=
  let formValue := cloneDeep (js_or initialValues (VObj [])) in
  match with_lastUpdate fs (Object_entries (js_or values (VObj []))) with
  | TypeError => TypeError
  | Ok mapped =>
      let sortedFields := Array_sort compare_lastUpdate mapped in
      match deepSet_all formValue
              (map (fun f => (key f, sf_value f)) sortedFields) with
      | TypeError => TypeError
      | Ok formValue =>
          deepSet_all formValue
            (Object_entries (js_or enrichments (VObj [])))
      end
  end.

Definition formValue (st : Form) : result val :=
  deriveFormValue (fields st) (Props.initialValues (props st))
    (values (fields st)) (enrichments (fields st)).

(** A comparison function that orders by [lastUpdate], ascending. *)
Definition compare_ascending (a b : SortedField) : Z :=
  sf_lastUpdate a - sf_lastUpdate b.

(** The form value as the specification words it: the clone of
    [initialValues], the value of each field deep-set at its path in
    ascending order of [lastUpdate], the enrichments deep-set last.  It is
    [deriveFormValue] with the fields put in that order. *)
Definition deriveFormValue_ascending (fs : list FieldInfo.t)
  (initialValues values enrichments : val) : result val :=
  let formValue := cloneDeep (js_or initialValues (VObj [])) in
  match with_lastUpdate fs (Object_entries (js_or values (VObj []))) with
  | TypeError => TypeError
  | Ok mapped =>
      let sortedFields := Array_sort compare_ascending mapped in
      match deepSet_all formValue
              (map (fun f => (key f, sf_value f)) sortedFields) with
      | TypeError => TypeError
      | Ok formValue =>
          deepSet_all formValue
            (Object_entries (js_or enrichments (VObj [])))
      end
  end.

Definition formValue_ascending (st : Form) : result val :=
  deriveFormValue_ascending (fields st) (Props.initialValues (props st))
    (values (fields st)) (enrichments (fields st)).

End Engine.

(** ** The field API ([makeFieldApi]) *)

Module fieldApi.
Section Api.

Context {H : HelpersT} {E : EnvT}.

(** [setValue(value, skipCheck)] of the API bound to [field].  [same_ref]
    tells whether [value] is the very object that the field holds. *)
Definition setValue (field : string) (value : val) (skipCheck same_ref : bool)
  : M val :=
  fieldInfo <- get_store field ;;
  let fieldState := FieldInfo.fieldState fieldInfo in
  let validator := FieldState.validator fieldState in
  if negb skipCheck
     && strict_equals same_ref (FieldState.value fieldState) value
  then ret VUndefined
  else
    error <- call_validator field validator value ;;
    t <- now ;;
    update field
      (fun s =>
         FieldState.mk (FieldState.fieldId s) value error
           (FieldState.disabled s) (FieldState.defaultValue s)
           (FieldState.validator s) t) ;;;
    ret (VBool (negb (truthy error))).

Definition clearValue (field : string) : M unit :=
  fieldInfo <- get_store field ;;
  let fieldState := FieldInfo.fieldState fieldInfo in
  p <- gets props ;;
  match get_member (Props.initialValues p) field with
  | TypeError => throw
  | Ok initial =>
      let newValue :=
        nullish_coalesce initial (FieldState.defaultValue fieldState) in
      t <- now ;;
      update field
        (fun s =>
           FieldState.mk (FieldState.fieldId s) newValue VNull
             (FieldState.disabled s) (FieldState.defaultValue s)
             (FieldState.validator s) t)
  end.

Definition updateValidation (field : string) (validationRules : val)
  : M unit :=
  fieldInfo <- get_store field ;;
  let fieldState := FieldInfo.fieldState fieldInfo in
  let value := FieldState.value fieldState in
  let error := FieldState.error fieldState in
  p <- gets props ;;
  let schemaConstraints :=
    opt_prop (opt_prop (Props.schema p) field) "constraints" in
  let validator :=
    if Props.disableValidation p then None
    else Some (createValidatorFromConstraints schemaConstraints
                 validationRules field (Props.table p)) in
  update field
    (fun s =>
       FieldState.mk (FieldState.fieldId s) (FieldState.value s)
         (FieldState.error s) (FieldState.disabled s)
         (FieldState.defaultValue s) validator (FieldState.lastUpdate s)) ;;;
  if truthy error
  then setValue field value true true ;;; ret tt
  else ret tt.

Definition setDisabled (field : string) (fieldDisabled : bool) : M unit :=
  _ <- get_store field ;;
  p <- gets props ;;
  let isAutoColumn :=
    truthy (opt_prop (opt_prop (Props.schema p) field) "autocolumn") in
  update field
    (fun s =>
       FieldState.mk (FieldState.fieldId s) (FieldState.value s)
         (FieldState.error s)
         (Props.disabled p || fieldDisabled || isAutoColumn)
         (FieldState.defaultValue s) (FieldState.validator s)
         (FieldState.lastUpdate s)).

Definition validate (field : string) : M val :=
  fieldInfo <- get_store field ;;
  setValue field (FieldState.value (FieldInfo.fieldState fieldInfo)) true true.

End Api.
End fieldApi.

(** ** The form API *)

Module formApi.
Section Api.

Context {H : HelpersT} {E : EnvT}.

(** [registerField(field, type, defaultValue, fieldDisabled,
    validationRules, step)].  An absent [field] is [None]; the handle it
    returns is the new field store, [None] standing for [undefined]. *)
Definition registerField (field : option string) (type defaultValue : val)
  (fieldDisabled : bool) (validationRules : val) (step : option Z)
  : M (option FieldInfo.t) :=
  match field with
  | None => ret None
  | Some field =>
      if (field =? "")%string then ret None
      else
        let defaultValue := default_param defaultValue VNull in
        let step := match step with Some n => n | None => 1 end in
        p <- gets props ;;
        let schemaConstraints :=
          opt_prop (opt_prop (Props.schema p) field) "constraints" in
        let validator :=
          if Props.disableValidation p then None
          else Some (createValidatorFromConstraints schemaConstraints
                       validationRules field (Props.table p)) in
        let initialValue :=
          nullish_coalesce (deepGet (Props.initialValues p) field)
            defaultValue in
        id <- Helpers_uuid ;;
        fs <- gets fields ;;
        let existingField := getField fs field in
        kept <-
          match existingField with
          | Some existing =>
              let fieldState := FieldInfo.fieldState existing in
              let initialValue :=
                nullish_coalesce (FieldState.value fieldState) initialValue in
              initialError <-
                (if truthy (FieldState.error fieldState)
                 then call_validator field validator initialValue
                 else ret VNull) ;;
              ret (FieldState.fieldId fieldState, initialValue, initialError)
          | None => ret ("id-" ++ id, initialValue, VNull)
          end ;;
        let '(fieldId, initialValue, initialError) := kept in
        let isAutoColumn :=
          truthy (opt_prop (opt_prop (Props.schema p) field) "autocolumn") in
        t <- now ;;
        let fieldInfo :=
          FieldInfo.mk field type (step_or_1 step)
            (FieldState.mk fieldId initialValue initialError
               (Props.disabled p || fieldDisabled || isAutoColumn)
               defaultValue validator t)
            (nullish_coalesce (opt_prop (Props.schema p) field) (VObj [])) in
        modify
          (set_fields
             (match existingField with
              | Some _ =>
                  filter (fun info => negb (FieldInfo.name info =? field)%string)
                    fs ++ [fieldInfo]
              | None => fs ++ [fieldInfo]
              end)%list) ;;;
        ret (Some fieldInfo)
  end.

(** The [forEach] of [validate]: every store of [validationFields] has its
    field API called, which is bound to the name of the field. *)
Fixpoint validate_each (validationFields : list FieldInfo.t) (valid : bool)
  : M bool :=
  match validationFields with
  | [] => ret valid
  | field :: rest =>
      r <- fieldApi.validate (FieldInfo.name field) ;;
      validate_each rest (if negb (truthy r) then false else valid)
  end.

Definition validate (onlyCurrentStep : bool) : M bool :=
  fs <- gets fields ;;
  cur <- gets currentStep ;;
  let validationFields :=
    if onlyCurrentStep
    then filter (fun f => FieldInfo.step f =? cur) fs
    else fs in
  validate_each validationFields true.

Fixpoint clear_each (fs : list FieldInfo.t) : M unit :=
  match fs with
  | [] => ret tt
  | field :: rest =>
      fieldApi.clearValue (FieldInfo.name field) ;;; clear_each rest
  end.

Definition clear : M unit :=
  fs <- gets fields ;;
  clear_each fs.

(** [changeStep({ type, number })]; an absent [number] is [None]. *)
Definition changeStep (type : val) (number : option number) : M unit :=
  if strict_equals false type (VStr "next")
  then modify (fun st => set_currentStep (currentStep st + 1) st)
  else if strict_equals false type (VStr "prev")
  then modify (fun st => set_currentStep (Z.max 1 (currentStep st - 1)) st)
  else if strict_equals false type (VStr "first")
  then modify (set_currentStep 1)
  else if strict_equals false type (VStr "specific")
          && truthy (val_of_number number) && negb (isNaN number)
  then match number with
       | Some (Int n) => modify (set_currentStep n)
       | _ => ret tt
       end
  else ret tt.

(** [setStep(step)] for a step that is a number or absent, as the step store
    holds numbers; the source stores any truthy argument as it is. *)
Definition setStep (step : option number) : M unit :=
  if truthy (val_of_number step)
  then match step with
       | Some (Int n) => modify (set_currentStep n)
       | _ => ret tt
       end
  else ret tt.

End Api.
End formApi.

(** ** Reachable states *)

(** One call into the engine from outside: the form API, the API of one
    field, or the parent setting the exported properties. *)
Inductive action : Type :=
| RegisterField (field : option string) (type defaultValue : val)
    (fieldDisabled : bool) (validationRules : val) (step : option Z)
| Validate (onlyCurrentStep : bool)
| Clear
| ChangeStep (type : val) (number : option number)
| SetStep (step : option number)
| SetValue (field : string) (value : val) (skipCheck same_ref : bool)
| ClearValue (field : string)
| UpdateValidation (field : string) (validationRules : val)
| SetDisabled (field : string) (fieldDisabled : bool)
| FieldValidate (field : string)
| SetProps (p : Props.t).

Section Reachable.

Context {H : HelpersT} {E : EnvT}.

Definition run (a : action) : M unit :=
  match a with
  | RegisterField field type defaultValue fieldDisabled validationRules step =>
      formApi.registerField field type defaultValue fieldDisabled
        validationRules step ;;; ret tt
  | Validate onlyCurrentStep => formApi.validate onlyCurrentStep ;;; ret tt
  | Clear => formApi.clear
  | ChangeStep type number => formApi.changeStep type number
  | SetStep step => formApi.setStep step
  | SetValue field value skipCheck same_ref =>
      fieldApi.setValue field value skipCheck same_ref ;;; ret tt
  | ClearValue field => fieldApi.clearValue field
  | UpdateValidation field validationRules =>
      fieldApi.updateValidation field validationRules
  | SetDisabled field fieldDisabled => fieldApi.setDisabled field fieldDisabled
  | FieldValidate field => fieldApi.validate field ;;; ret tt
  | SetProps p => modify (set_props p)
  end.

(** The states the engine can be in, started with properties [p]. *)
Inductive reachable (p : Props.t) : Form -> Prop :=
| reachable_init : reachable p (initialForm p)
| reachable_step (st st' : Form) (a : action) :
    reachable p st -> run a st = Ok (tt, st') -> reachable p st'.

(** A computation that leaves the names in the field array as they are. *)
Definition keeps_names {A : Type} (c : M A) : Prop :=
  forall (st : Form) (a : A) (st' : Form),
    c st = Ok (a, st') ->
    map FieldInfo.name (fields st') = map FieldInfo.name (fields st).

(** Runs a list of calls, stopping at the first that throws. *)
Fixpoint run_all (l : list action) : M unit :=
  match l with
  | [] => ret tt
  | a :: r => run a ;;; run_all r
  end.

End Reachable.

(** ** The helpers, after the specification *)

Definition is_path_separator (c : ascii) : bool :=
  ((c =? ".") || (c =? "[") || (c =? "]"))%char.

Fixpoint split_path_from (s cur : string) : list string :=
  match s with
  | EmptyString => if (cur =? "")%string then [] else [cur]
  | String c r =>
      if is_path_separator c
      then if (cur =? "")%string
           then split_path_from r ""
           else cur :: split_path_from r ""
      else split_path_from r (cur ++ String c EmptyString)
  end.

(** Modelled from the spec: how [Helpers.deepGet] and [Helpers.deepSet] of
    [@budibase/bbui], whose source is not at hand, read a key: "nested path
    get/set using dotted or bracket paths". *)
Definition split_path (key : string) : list string :=
  split_path_from key "".

(** Modelled from the spec: [Helpers.deepGet] of [@budibase/bbui]; the
    nested get walks the segments of the path, and a missing level gives
    [undefined]. *)
Definition spec_deepGet (o : val) (key : string) : val :=
  fold_left opt_prop (split_path key) o.

Fixpoint set_path (o : val) (path : list string) (x : val) : result val :=
  match path with
  | [] => Ok o
  | k :: rest =>
      match o with
      | VObj ps =>
          match rest with
          | [] => Ok (VObj (obj_set ps k x))
          | _ :: _ =>
              let child :=
                match own ps k with
                | Some c => if is_nullish c then VObj [] else c
                | None => VObj []
                end in
              match set_path child rest x with
              | Ok child' => Ok (VObj (obj_set ps k child'))
              | TypeError => TypeError
              end
          end
      | VBool _ | VNum _ | VStr _ => TypeError
      | _ => Ok o
      end
  end.

(** Modelled from the spec: [Helpers.deepSet] of [@budibase/bbui]; the
    nested set walks the segments of the path, creating the objects that
    are missing on the way, and writes the last segment.  A segment that is
    to be written on a string, a number or a boolean throws, as the
    assignment of a property of a primitive does in module code. *)
Definition spec_deepSet (o : val) (key : string) (x : val) : result val :=
  set_path o (split_path key) x.

(** Modelled from the spec: [Helpers.cloneDeep] of [@budibase/bbui]; a deep
    clone of a tree is the same tree. *)
Definition spec_cloneDeep (o : val) : val := o.

(** Modelled from the spec: [Helpers.uuid] of [@budibase/bbui], "unique ID
    generation": the [n]-th identifier is the numeral [n]. *)
Definition spec_uuid (n : nat) : string := string_of_nat n.

Definition specHelpers : HelpersT :=
  Build_HelpersT spec_cloneDeep spec_deepGet spec_deepSet spec_uuid.

(** ** Sample surroundings *)

(** A clock that advances by one millisecond per reading. *)
Definition sample_clock (n : nat) : Z := 1000 + Z.of_nat n.

(** A validator factory whose validators demand a truthy value. *)
Definition required_validator (constraints rules : val) (field : string)
  (table : val) (value : val) : val :=
  if truthy value then VNull else VStr "Required".


Definition sampleEnv : EnvT := Build_EnvT required_validator sample_clock.


Definition sampleProps (initialValues : val) : Props.t :=
  Props.mk false initialValues VUndefined VUndefined false.

(** The state after the calls [l] on a fresh form; the fresh form itself
    should a call throw. *)
Definition after {H : HelpersT} {E : EnvT} (p : Props.t) (l : list action)
  : Form :=
  match run_all l (initialForm p) with
  | Ok (_, st) => st
  | TypeError => initialForm p
  end.

(** A form with one required text field "a", validated while empty, so
    that it carries the error "Required". *)
Definition required_form : Form :=
  after (H := specHelpers) (E := sampleEnv) (sampleProps (VObj []))
    [ RegisterField (Some "a") (VStr "text") (VStr "") false VUndefined None;
      FieldValidate "a" ].



(** The scenario of the specification: a required field "name" on step 1
    is validated by step, the form moves on, and step 2, which has no field
    yet, is validated. *)
Definition scenario : M (bool * bool) :=
  formApi.registerField (H := specHelpers) (E := sampleEnv) (Some "name")
    (VStr "text") (VStr "") false VUndefined (Some 1) ;;;
  first <- formApi.validate (E := sampleEnv) true ;;
  formApi.changeStep (VStr "next") None ;;;
  second <- formApi.validate (E := sampleEnv) true ;;
  ret (first, second).

(** A form moved to its third step. *)
Definition third_step_form : Form :=
  after (H := specHelpers) (E := sampleEnv) (sampleProps (VObj []))
    [ ChangeStep (VStr "next") None; ChangeStep (VStr "next") None ].

(** Initial values that hold 5 at the path "x.y" and have no property named
    "x.y". *)
Definition nested_initialValues : val :=
  VObj [("x", VObj [("y", VNum (Int 5))])].


(** A form with two attachment fields, one holding two files and one
    holding none, and a text field. *)
Definition attachments_form : Form :=
  after (H := specHelpers) (E := sampleEnv) (sampleProps (VObj []))
    [ RegisterField (Some "files") (VStr "attachment")
        (VArr [VObj [("url", VStr "a")]; VObj [("url", VStr "b")]])
        false VUndefined None;
      RegisterField (Some "scans") (VStr "attachment") (VArr []) false
        VUndefined None;
      RegisterField (Some "title") (VStr "text") (VStr "t") false VUndefined
        None ].

(** The calls that register a nested field "x.y" and a JSON field "x", in
    this order, and then write to the nested field. *)
Definition nested_conflict_calls : list action :=
  [ RegisterField (Some "x.y") (VStr "number") (VNum (Int 1)) false
      VUndefined None;
    RegisterField (Some "x") (VStr "json") (VObj [("y", VNum (Int 2))])
      false VUndefined None;
    SetValue "x.y" (VNum (Int 7)) false false ].

Definition nested_conflict_form : Form :=
  after (H := specHelpers) (E := sampleEnv) (sampleProps (VObj []))
    nested_conflict_calls.

(** ** Further sample forms *)

(** Properties of a form whose validation is disabled. *)
Definition no_validation_props : Props.t :=
  Props.mk false (VObj []) VUndefined VUndefined true.

(** The calls that register a field "a" on step 1 and a field "b" on
    step 2. *)
Definition two_fields_calls : list action :=
  [ RegisterField (Some "a") (VStr "text") (VStr "") false VUndefined None;
    RegisterField (Some "b") (VStr "text") VUndefined false VUndefined
      (Some 2) ].

(** A form without validation that holds these two fields. *)
Definition unvalidated_form : Form :=
  after (H := specHelpers) (E := sampleEnv) no_validation_props
    two_fields_calls.

(** A form that was given no initial values and holds these two fields. *)
Definition uninitialised_form : Form :=
  after (H := specHelpers) (E := sampleEnv) (sampleProps VUndefined)
    two_fields_calls.

(** The calls that lead to [required_form]. *)
Definition required_calls : list action :=
  [ RegisterField (Some "a") (VStr "text") (VStr "") false VUndefined None;
    FieldValidate "a" ].

(** [required_form] after its field "a" was given the value "x". *)
Definition edited_form : Form :=
  match fieldApi.setValue (E := sampleEnv) "a" (VStr "x") false false
          required_form with
  | Ok (_, st) => st
  | TypeError => required_form
  end.

(** The calls that lead to [attachments_form]. *)
Definition attachments_calls : list action :=
  [ RegisterField (Some "files") (VStr "attachment")
      (VArr [VObj [("url", VStr "a")]; VObj [("url", VStr "b")]])
      false VUndefined None;
    RegisterField (Some "scans") (VStr "attachment") (VArr []) false
      VUndefined None;
    RegisterField (Some "title") (VStr "text") (VStr "t") false VUndefined
      None ].

(** ** Field identifiers *)

Definition fieldId_of (f : FieldInfo.t) : string :=
  FieldState.fieldId (FieldInfo.fieldState f).

(** A computation that leaves the identifiers of the fields and the number
    of identifiers drawn as they are. *)
Definition keeps_ids {A : Type} (c : M A) : Prop :=
  forall (st : Form) (a : A) (st' : Form),
    c st = Ok (a, st') ->
    map fieldId_of (fields st') = map fieldId_of (fields st)
    /\ uuids st' = uuids st.

(** Every field carries an identifier that was drawn, and no two fields
    carry the same one. *)
Definition ids_drawn {H : HelpersT} (st : Form) : Prop :=
  NoDup (map fieldId_of (fields st))
  /\ forall f, In f (fields st) ->
               exists k : nat,
                 (k < uuids st)%nat /\ fieldId_of f = "id-" ++ uuid k.

(** ** The data context of the form *)

(** [{ ...v }]: the own properties of [v], copied in enumeration order. *)
Definition spread (v : val) : obj :=
  fold_left (fun o e => obj_set o (fst e) (snd e)) (Object_entries v) [].

(** The [dataContext] that the form provides: the form value spread out,
    then the four static keys. *)
Definition dataContext {H : HelpersT} (st : Form) : result val :=
  match formValue st with
  | TypeError => TypeError
  | Ok formValue =>
      Ok (VObj
            (obj_set
               (obj_set
                  (obj_set
                     (obj_set (spread formValue) "__value" formValue)
                     "__valid" (VBool (valid (fields st))))
                  "__currentStep" (VNum (Int (currentStep st))))
               "__currentStepValid" (VBool (currentStepValid st))))
  end.

(** ** The modal dialog content (ModalContent.svelte) *)

Module ModalContent.

(** What the handlers of the dialog change: the [loading] flag of the
    component, and how often [hide] and [cancel] of the modal context have
    been called. *)
Record t : Type := mk {
  loading : bool;
  hides : nat;
  cancels : nat
}.

(** How an awaited callback ends: it resolves to a value, or it throws (or
    its promise rejects). *)
Inductive outcome : Type :=
| Resolved (v : val)
| Rejected.

Definition hide (m : t) : t := mk (loading m) (S (hides m)) (cancels m).

Definition cancel (m : t) : t := mk (loading m) (hides m) (S (cancels m)).

Definition set_loading (b : bool) (m : t) : t := mk b (hides m) (cancels m).

(** [$: confirmDisabled = disabled || loading] *)
Definition confirmDisabled (disabled : bool) (m : t) : bool :=
  disabled || loading m.

(** The body shared by [secondary], [confirm] and [close]:
    [loading = true; if (!callback || (await callback()) !== false)
    dismiss(); loading = false].  An absent callback is [None]; the
    boolean says whether the handler ran to its end. *)
Definition handler (callback : option outcome) (dismiss : t -> t) (m : t)
  : t * bool :=
  let m := set_loading true m in
  match callback with
  | None => (set_loading false (dismiss m), true)
  | Some (Resolved v) =>
      if negb (strict_equals false v (VBool false))
      then (set_loading false (dismiss m), true)
      else (set_loading false m, true)
  | Some Rejected => (m, false)
  end.

Definition secondary (secondaryAction : option outcome) (m : t) : t * bool :=
  handler secondaryAction hide m.

Definition confirm (onConfirm : option outcome) (m : t) : t * bool :=
  handler onConfirm hide m.

Definition close (onCancel : option outcome) (m : t) : t * bool :=
  handler onCancel cancel m.

End ModalContent.

(** ** The data providers of the "Save Row" action settings *)

(** What the settings take from the builder and from the language:
    [store.actions.components.getDefinition], and the conversion of a value
    to a string that template literals and [+=] perform, which is the
    identity on strings. *)
Class BuilderT : Type := {
  getDefinition : val -> val;
  ToString : val -> string;
  ToString_string : forall s : string, ToString (VStr s) = s
}.

Module SaveRow.
Section Settings.

Context {B : BuilderT}.

(** [Array.prototype.find]: the first element that passes, or
    [undefined]. *)
Definition Array_find (p : val -> bool) (l : list val) : val :=
  match find p l with
  | Some x => x
  | None => VUndefined
  end.

Definition extractComponentContext (component contextType : val) : val :=
  let def := getDefinition (opt_prop component "_component") in
  if negb (truthy def) then VNull
  else
    let contexts :=
      match prop def "context" with
      | VArr l => l
      | c => [c]
      end in
    Array_find
      (fun context => strict_equals false (opt_prop context "type") contextType)
      contexts.

(** The callback of [allContexts.map] in [getProviderOptions]. *)
Definition providerOption (component context : val) : result val :=
  match get_member component "_id" with
  | TypeError => TypeError
  | Ok runtimeBinding =>
      match get_member context "suffix" with
      | TypeError => TypeError
      | Ok suffix =>
          let runtimeBinding :=
            if truthy suffix
            then VStr (ToString runtimeBinding ++ "-" ++ ToString suffix)
            else runtimeBinding in
          Ok (VObj [("label", prop component "_instanceName");
                    ("value", runtimeBinding)])
      end
  end.

(** [Array.prototype.map] with a callback that may throw. *)
Fixpoint map_result {A C : Type} (f : A -> result C) (l : list A)
  : result (list C) :=
  match l with
  | [] => Ok []
  | x :: r =>
      match f x with
      | TypeError => TypeError
      | Ok y =>
          match map_result f r with
          | TypeError => TypeError
          | Ok ys => Ok (y :: ys)
          end
      end
  end.

Definition getProviderOptions (formComponents schemaComponents : list val)
  : result (list val) :=
  let formContexts :=
    map (fun component =>
           (component, extractComponentContext component (VStr "form")))
      formComponents in
  let schemaContexts :=
    map (fun component =>
           (component, extractComponentContext component (VStr "schema")))
      schemaComponents in
  let allContexts := (formContexts ++ schemaContexts)%list in
  map_result (fun cc => providerOption (fst cc) (snd cc)) allContexts.

End Settings.
End SaveRow.

(** A builder that knows two component definitions: a form, whose context
    is a single object, and a data provider, whose contexts are an array. *)
Definition sample_getDefinition (name : val) : val :=
  match name with
  | VStr "form" =>
      VObj [("context", VObj [("type", VStr "form")])]
  | VStr "dataprovider" =>
      VObj [("context",
             VArr [VObj [("type", VStr "static")];
                   VObj [("type", VStr "schema");
                         ("suffix", VStr "rows")]])]
  | _ => VUndefined
  end.

(** A conversion to strings that is right on strings, [undefined], [null]
    and booleans, which is all the samples need. *)
Definition sample_ToString (v : val) : string :=
  match v with
  | VStr s => s
  | VUndefined => "undefined"
  | VNull => "null"
  | VBool true => "true"
  | VBool false => "false"
  | _ => ""
  end.

Definition sampleBuilder : BuilderT :=
  Build_BuilderT sample_getDefinition sample_ToString (fun s => eq_refl).

Definition sample_form_component : val :=
  VObj [("_id", VStr "c1"); ("_instanceName", VStr "New Form");
        ("_component", VStr "form")].

Definition sample_provider_component : val :=
  VObj [("_id", VStr "c2"); ("_instanceName", VStr "Rows");
        ("_component", VStr "dataprovider")].

(** * Properties *)

(** ** Objects *)

Lemma own_obj_set_same (o : obj) (k : string) (v : val) :
  own (obj_set o k v) k = Some v.
Proof.
  induction o as [|[k' v'] r IH]; simpl.
  - now rewrite String.eqb_refl.
  - destruct (k' =? k)%string eqn:Hk; simpl.
    + now rewrite String.eqb_refl.
    + now rewrite Hk.
Qed.

Lemma own_obj_set_other (o : obj) (k k' : string) (v : val) :
  k <> k' -> own (obj_set o k v) k' = own o k'.
Proof.
  intros Hneq.
  induction o as [|[k0 v0] r IH]; simpl.
  - destruct (k =? k')%string eqn:Hk; [|reflexivity].
    apply String.eqb_eq in Hk. contradiction.
  - destruct (k0 =? k)%string eqn:Hk; simpl.
    + apply String.eqb_eq in Hk. subst k0.
      destruct (k =? k')%string eqn:Hk'; [|reflexivity].
      apply String.eqb_eq in Hk'. contradiction.
    + now rewrite IH.
Qed.

Lemma obj_set_keys (o : obj) (k : string) (v : val) (k' : string) :
  In k' (map fst (obj_set o k v)) <-> k' = k \/ In k' (map fst o).
Proof.
  induction o as [|[k0 v0] r IH]; simpl.
  - intuition auto.
  - destruct (k0 =? k)%string eqn:Hk; simpl.
    + apply String.eqb_eq in Hk. subst k0. intuition auto.
    + rewrite IH. intuition auto.
Qed.

Lemma obj_set_NoDup (o : obj) (k : string) (v : val) :
  NoDup (map fst o) -> NoDup (map fst (obj_set o k v)).
Proof.
  induction o as [|[k0 v0] r IH]; simpl; intros Hnd.
  - constructor; [intros []|constructor].
  - inversion Hnd as [|? ? Hnotin Hnd']; subst.
    destruct (k0 =? k)%string eqn:Hk; simpl.
    + apply String.eqb_eq in Hk. subst k0. now constructor.
    + constructor; [|now apply IH].
      rewrite obj_set_keys. intros [->|Hin]; [|contradiction].
      now rewrite String.eqb_refl in Hk.
Qed.

Lemma own_In (o : obj) (k : string) (v : val) :
  own o k = Some v -> In (k, v) o.
Proof.
  induction o as [|[k0 v0] r IH]; simpl; [discriminate|].
  destruct (k0 =? k)%string eqn:Hk.
  - apply String.eqb_eq in Hk. subst k0. intros [= ->]. now left.
  - intros Hown. right. now apply IH.
Qed.

Lemma In_own (o : obj) (k : string) (v : val) :
  NoDup (map fst o) -> In (k, v) o -> own o k = Some v.
Proof.
  induction o as [|[k0 v0] r IH]; simpl; intros Hnd Hin; [contradiction|].
  inversion Hnd as [|? ? Hnotin Hnd']; subst.
  destruct Hin as [[= -> ->]|Hin].
  - now rewrite String.eqb_refl.
  - destruct (k0 =? k)%string eqn:Hk.
    + apply String.eqb_eq in Hk. subst k0. exfalso. apply Hnotin.
      change k with (fst (k, v)). now apply in_map.
    + now apply IH.
Qed.

Lemma insert_index_perm (e : string * val) (l : obj) :
  Permutation (insert_index e l) (e :: l).
Proof.
  induction l as [|e' r IH]; simpl; [reflexivity|].
  destruct (index_of_key (fst e) <? index_of_key (fst e'))%N; [reflexivity|].
  rewrite IH. apply perm_swap.
Qed.

Lemma sort_index_perm (l : obj) : Permutation (sort_index l) l.
Proof.
  induction l as [|e r IH]; simpl; [reflexivity|].
  rewrite insert_index_perm. now constructor.
Qed.

Lemma filter_split_perm {A : Type} (p : A -> bool) (l : list A) :
  Permutation (filter p l ++ filter (fun x => negb (p x)) l) l.
Proof.
  induction l as [|x r IH]; simpl; [reflexivity|].
  destruct (p x); simpl.
  - now constructor.
  - rewrite <- Permutation_middle. now constructor.
Qed.

(** [Object.entries] enumerates every own property once. *)
Lemma own_entries_perm (o : obj) : Permutation (own_entries o) o.
Proof.
  unfold own_entries.
  rewrite sort_index_perm.
  apply (filter_split_perm (fun e => is_index_key (fst e))).
Qed.

(** An object without index keys is enumerated in insertion order. *)
Lemma own_entries_plain (o : obj) :
  forallb (fun e => negb (is_index_key (fst e))) o = true ->
  own_entries o = o.
Proof.
  intros Hplain. unfold own_entries.
  assert (Hnone : filter (fun e => is_index_key (fst e)) o = []).
  { induction o as [|e r IH]; simpl in *; [reflexivity|].
    apply andb_true_iff in Hplain as [He Hr].
    apply negb_true_iff in He. rewrite He. now apply IH. }
  rewrite Hnone. simpl.
  induction o as [|e r IH]; simpl in *; [reflexivity|].
  apply andb_true_iff in Hplain as [He Hr].
  rewrite He. f_equal. apply IH; [assumption|].
  apply negb_true_iff in He. rewrite He in Hnone. assumption.
Qed.

(** ** Derived stores *)

Lemma fold_obj_set_NoDup {A : Type} (key : A -> string) (g : A -> val)
  (l : list A) (acc : obj) :
  NoDup (map fst acc) ->
  NoDup (map fst (fold_left (fun m x => obj_set m (key x) (g x)) l acc)).
Proof.
  revert acc. induction l as [|x r IH]; simpl; intros acc Hnd; [assumption|].
  apply IH. now apply obj_set_NoDup.
Qed.

Lemma getField_In (fs : list FieldInfo.t) (name : string) (f : FieldInfo.t) :
  getField fs name = Some f -> In f fs /\ FieldInfo.name f = name.
Proof.
  unfold getField. intros Hfind. apply find_some in Hfind as [Hin Hname].
  split; [assumption|]. now apply String.eqb_eq.
Qed.

Lemma getField_None (fs : list FieldInfo.t) (name : string) :
  getField fs name = None <-> ~ In name (map FieldInfo.name fs).
Proof.
  unfold getField. induction fs as [|f r IH]; simpl.
  - intuition auto.
  - destruct (FieldInfo.name f =? name)%string eqn:Hn.
    + apply String.eqb_eq in Hn. split; [discriminate|]. intros Hnot.
      exfalso. apply Hnot. now left.
    + rewrite IH. apply String.eqb_neq in Hn. intuition auto.
Qed.

Lemma getField_unique (fs : list FieldInfo.t) (f : FieldInfo.t) :
  NoDup (map FieldInfo.name fs) -> In f fs ->
  getField fs (FieldInfo.name f) = Some f.
Proof.
  unfold getField. induction fs as [|g r IH]; simpl; intros Hnd Hin.
  - contradiction.
  - inversion Hnd as [|? ? Hnotin Hnd']; subst.
    destruct Hin as [->|Hin].
    + now rewrite String.eqb_refl.
    + destruct (FieldInfo.name g =? FieldInfo.name f)%string eqn:Hn.
      * apply String.eqb_eq in Hn. exfalso. apply Hnotin. rewrite Hn.
        now apply in_map.
      * now apply IH.
Qed.

(** With one field per name, a derived mapping binds exactly the names of
    the fields, each to the property of its field. *)
Lemma own_deriveFieldProperty (fs : list FieldInfo.t)
  (getProp : FieldInfo.t -> val) (name : string) :
  NoDup (map FieldInfo.name fs) ->
  own_property (deriveFieldProperty fs getProp) name
  = option_map getProp (getField fs name).
Proof.
  unfold deriveFieldProperty. simpl.
  assert (Hgen : forall acc,
    NoDup (map FieldInfo.name fs) ->
    own (fold_left
           (fun map field => obj_set map (FieldInfo.name field) (getProp field))
           fs acc) name
    = match getField fs name with
      | Some f => Some (getProp f)
      | None => own acc name
      end).
  { induction fs as [|f r IH]; simpl; intros acc Hnd; [reflexivity|].
    inversion Hnd as [|? ? Hnotin Hnd']; subst.
    rewrite IH by assumption.
    unfold getField at 2. simpl.
    destruct (FieldInfo.name f =? name)%string eqn:Hn.
    - apply String.eqb_eq in Hn. subst name.
      apply getField_None in Hnotin. rewrite Hnotin.
      apply own_obj_set_same.
    - fold (getField r name). destruct (getField r name); [reflexivity|].
      apply own_obj_set_other. now apply String.eqb_neq. }
  intros Hnd. rewrite Hgen by assumption.
  now destruct (getField fs name).
Qed.

(** [Object.values] of an object holds exactly the values its keys are
    bound to. *)
Lemma Object_values_In (o : obj) (e : val) :
  NoDup (map fst o) ->
  (In e (Object_values (VObj o)) <-> exists k : string, own o k = Some e).
Proof.
  intros Hnd. unfold Object_values. simpl. split.
  - intros Hin. apply in_map_iff in Hin as [[k e'] [Heq Hin]].
    simpl in Heq. subst e'.
    apply (Permutation_in _ (own_entries_perm o)) in Hin.
    exists k. now apply In_own.
  - intros [k Hown]. apply own_In in Hown.
    apply (Permutation_in _ (Permutation_sym (own_entries_perm o))) in Hown.
    change e with (snd (k, e)). now apply in_map.
Qed.

Lemma derived_NoDup (fs : list FieldInfo.t) (getProp : FieldInfo.t -> val) :
  exists o : obj,
    deriveFieldProperty fs getProp = VObj o /\ NoDup (map fst o).
Proof.
  eexists. split; [reflexivity|].
  apply (fold_obj_set_NoDup FieldInfo.name). constructor.
Qed.

(** C2.  [valid] is true exactly when the [errors] mapping binds no field
    name to an error other than [null] and [undefined].  [valid] and
    [errors] are functions of the field array, so this holds in every state
    of the engine, the reachable ones included. *)
Theorem valid_iff_no_error (fs : list FieldInfo.t) :
  valid fs = true <->
  (forall (name : string) (e : val),
      own_property (errors fs) name = Some e -> is_nullish e = true).
Proof.
  unfold valid, Array_some, errors.
  destruct (derived_NoDup fs
              (fun f => FieldState.error (FieldInfo.fieldState f)))
    as (o & -> & Hnd).
  simpl. rewrite negb_true_iff. split.
  - intros Hnone name e Hown.
    destruct (is_nullish e) eqn:He; [reflexivity|].
    assert (Hex : existsb (fun error => negb (is_nullish error))
                    (Object_values (VObj o)) = true).
    { apply existsb_exists. exists e. split.
      - apply Object_values_In; [assumption|]. now exists name.
      - now rewrite He. }
    congruence.
  - intros Hall.
    destruct (existsb _ _) eqn:Hex; [|reflexivity].
    apply existsb_exists in Hex as [e [Hin He]].
    apply Object_values_In in Hin as [name Hown]; [|assumption].
    rewrite (Hall _ _ Hown) in He. discriminate.
Qed.

(** The current step is valid exactly when none of its fields has an error
    other than [null] and [undefined]. *)
Lemma currentStepValid_iff (st : Form) :
  currentStepValid st = true <->
  (forall f, In f (fields st) -> FieldInfo.step f = currentStep st ->
             is_nullish (FieldState.error (FieldInfo.fieldState f)) = true).
Proof.
  unfold currentStepValid, Array_some. rewrite negb_true_iff. split.
  - intros Hnone f Hin Hstep.
    destruct (is_nullish _) eqn:He; [reflexivity|].
    assert (Hex : existsb
              (fun f => negb (is_nullish
                                (FieldState.error (FieldInfo.fieldState f))))
              (filter (fun f => FieldInfo.step f =? currentStep st)
                 (fields st)) = true).
    { apply existsb_exists. exists f. split.
      - apply filter_In. split; [assumption|]. now apply Z.eqb_eq.
      - now rewrite He. }
    congruence.
  - intros Hall. destruct (existsb _ _) eqn:Hex; [|reflexivity].
    apply existsb_exists in Hex as [f [Hin He]].
    apply filter_In in Hin as [Hin Hstep]. apply Z.eqb_eq in Hstep.
    rewrite (Hall f Hin Hstep) in He. discriminate.
Qed.

(** ** Field stores *)

Lemma getField_update_store_same (fs : list FieldInfo.t) (name : string)
  (g : FieldState.t -> FieldState.t) (f : FieldInfo.t) :
  getField fs name = Some f ->
  getField (update_store name g fs) name
  = Some (FieldInfo.mk (FieldInfo.name f) (FieldInfo.type f)
            (FieldInfo.step f) (g (FieldInfo.fieldState f))
            (FieldInfo.fieldSchema f)).
Proof.
  unfold getField. induction fs as [|x r IH]; simpl; [discriminate|].
  destruct (FieldInfo.name x =? name)%string eqn:Hn; simpl.
  - intros [= ->]. now rewrite Hn.
  - rewrite Hn. apply IH.
Qed.

Lemma getField_update_store_other (fs : list FieldInfo.t)
  (name other : string) (g : FieldState.t -> FieldState.t) :
  other <> name ->
  getField (update_store name g fs) other = getField fs other.
Proof.
  intros Hneq. unfold getField.
  induction fs as [|x r IH]; simpl; [reflexivity|].
  destruct (FieldInfo.name x =? name)%string eqn:Hn; simpl.
  - apply String.eqb_eq in Hn.
    destruct (FieldInfo.name x =? other)%string eqn:Ho; [|reflexivity].
    apply String.eqb_eq in Ho. congruence.
  - destruct (FieldInfo.name x =? other)%string; [reflexivity|apply IH].
Qed.

Lemma update_store_names (fs : list FieldInfo.t) (name : string)
  (g : FieldState.t -> FieldState.t) :
  map FieldInfo.name (update_store name g fs) = map FieldInfo.name fs.
Proof.
  induction fs as [|x r IH]; simpl; [reflexivity|].
  destruct (FieldInfo.name x =? name)%string; simpl; [reflexivity|].
  now rewrite IH.
Qed.

(** A store that does not carry the name is left as it is. *)
Lemma update_store_In_other (fs : list FieldInfo.t) (name : string)
  (g : FieldState.t -> FieldState.t) (x : FieldInfo.t) :
  FieldInfo.name x <> name -> In x fs -> In x (update_store name g fs).
Proof.
  intros Hneq. induction fs as [|y r IH]; simpl; [tauto|].
  intros [->|Hin].
  - apply String.eqb_neq in Hneq. rewrite Hneq. now left.
  - destruct (FieldInfo.name y =? name)%string; right; auto.
Qed.

Section FieldApiFacts.

Context {H : HelpersT} {E : EnvT}.

(** What [validator?.(value)] evaluates to. *)
Lemma call_validator_run (field : string) (validator : option (val -> val))
  (value : val) (st : Form) :
  exists st',
    call_validator field validator value st
    = Ok (match validator with Some v => v value | None => VUndefined end, st')
    /\ props st' = props st /\ fields st' = fields st
    /\ currentStep st' = currentStep st /\ uuids st' = uuids st
    /\ ticks st' = ticks st
    /\ validatorCalls st'
       = (validatorCalls st
          ++ match validator with Some _ => [(field, value)] | None => [] end)%list.
Proof.
  destruct validator as [v|]; simpl.
  - eexists. split; [reflexivity|]. simpl. repeat split; reflexivity.
  - exists st. unfold ret. rewrite app_nil_r. repeat split; reflexivity.
Qed.

(** The outcome of a [setValue] that is not skipped. *)
Lemma setValue_run (st : Form) (field : string) (f : FieldInfo.t)
  (value : val) (skipCheck same_ref : bool) :
  getField (fields st) field = Some f ->
  negb skipCheck
  && strict_equals same_ref (FieldState.value (FieldInfo.fieldState f)) value
  = false ->
  let error :=
    match FieldState.validator (FieldInfo.fieldState f) with
    | Some v => v value
    | None => VUndefined
    end in
  fieldApi.setValue field value skipCheck same_ref st
  = Ok (VBool (negb (truthy error)),
        mkForm (props st)
          (update_store field
             (fun s =>
                FieldState.mk (FieldState.fieldId s) value error
                  (FieldState.disabled s) (FieldState.defaultValue s)
                  (FieldState.validator s) (Date_now (ticks st)))
             (fields st))
          (currentStep st) (uuids st) (S (ticks st))
          (validatorCalls st
           ++ match FieldState.validator (FieldInfo.fieldState f) with
              | Some _ => [(field, value)]
              | None => []
              end)%list).
Proof.
  intros Hget Hcond error.
  unfold fieldApi.setValue, bind, get_store. rewrite Hget. simpl.
  rewrite Hcond.
  destruct (call_validator_run field
              (FieldState.validator (FieldInfo.fieldState f)) value st)
    as (st1 & Hcall & Hprops & Hfields & Hstep & Huuids & Hticks & Hcalls).
  rewrite Hcall. fold error. simpl. unfold ret, set_fields. simpl.
  now rewrite Hprops, Hfields, Hstep, Huuids, Hticks, Hcalls.
Qed.

(** [setValue] when it is skipped: nothing changes and nothing is
    returned. *)
Lemma setValue_skipped (st : Form) (field : string) (f : FieldInfo.t)
  (value : val) (skipCheck same_ref : bool) :
  getField (fields st) field = Some f ->
  negb skipCheck
  && strict_equals same_ref (FieldState.value (FieldInfo.fieldState f)) value
  = true ->
  fieldApi.setValue field value skipCheck same_ref st = Ok (VUndefined, st).
Proof.
  intros Hget Hcond.
  unfold fieldApi.setValue, bind, get_store. rewrite Hget. simpl.
  rewrite Hcond. reflexivity.
Qed.

(** The outcome of [clearValue] when [initialValues[field]] can be read. *)
Lemma clearValue_run (st : Form) (field : string) (f : FieldInfo.t)
  (initial : val) :
  getField (fields st) field = Some f ->
  get_member (Props.initialValues (props st)) field = Ok initial ->
  fieldApi.clearValue field st
  = Ok (tt,
        mkForm (props st)
          (update_store field
             (fun s =>
                FieldState.mk (FieldState.fieldId s)
                  (nullish_coalesce initial
                     (FieldState.defaultValue (FieldInfo.fieldState f)))
                  VNull (FieldState.disabled s) (FieldState.defaultValue s)
                  (FieldState.validator s) (Date_now (ticks st)))
             (fields st))
          (currentStep st) (uuids st) (S (ticks st)) (validatorCalls st)).
Proof.
  intros Hget Hinit.
  unfold fieldApi.clearValue, bind, get_store, gets. rewrite Hget. simpl.
  rewrite Hinit. reflexivity.
Qed.

(** For an error that is absent or a truthy message, [!error] says whether
    the error is absent. *)
Lemma not_error_iff_absent (error : val) :
  is_nullish error = true \/ truthy error = true ->
  (negb (truthy error) = true <-> is_nullish error = true).
Proof.
  intros [Habsent|Hmessage].
  - destruct error; try discriminate; simpl; tauto.
  - rewrite Hmessage. destruct error; simpl in *; try discriminate;
      split; discriminate.
Qed.

(** C3.  [registerField] called without a field name, [undefined] or the
    empty string, returns no handle and leaves the whole state of the
    form, the field array included, as it was. *)
Theorem registerField_without_name (st : Form) (field : option string)
  (type defaultValue : val) (fieldDisabled : bool) (validationRules : val)
  (step : option Z) :
  field = None \/ field = Some "" ->
  formApi.registerField field type defaultValue fieldDisabled validationRules
    step st = Ok (None, st).
Proof.
  intros [->| ->]; reflexivity.
Qed.


(** When [initialValues] is [null] or [undefined], the property read of
    [clearValue] throws and nothing is changed. *)
Lemma clearValue_throws (st : Form) (field : string) :
  is_nullish (Props.initialValues (props st)) = true ->
  fieldApi.clearValue field st = TypeError.
Proof.
  intros Hnull.
  unfold fieldApi.clearValue, bind, get_store, gets, get_member.
  destruct (getField (fields st) field); [|reflexivity].
  simpl. now rewrite Hnull.
Qed.

(** C7.  [clearValue] on a registered field reads [initialValues[name]]
    before it changes anything.  In a form that was given no initial values
    ([initialValues] is [undefined] or [null]) the read throws: the value is
    not reset to [defaultValue], the error is not cleared.  In a form with
    initial values, the value becomes [initialValues[name] ?? defaultValue],
    the error [null] and [lastUpdate] the clock, no validator is called and
    the other fields are left alone. *)
Theorem clearValue_spec (st : Form) (field : string) (f : FieldInfo.t) :
  getField (fields st) field = Some f ->
  (is_nullish (Props.initialValues (props st)) = true ->
   fieldApi.clearValue field st = TypeError)
  /\
  (is_nullish (Props.initialValues (props st)) = false ->
   exists (st' : Form) (f' : FieldInfo.t),
     fieldApi.clearValue field st = Ok (tt, st')
     /\ getField (fields st') field = Some f'
     /\ FieldState.value (FieldInfo.fieldState f')
        = nullish_coalesce (prop (Props.initialValues (props st)) field)
            (FieldState.defaultValue (FieldInfo.fieldState f))
     /\ FieldState.error (FieldInfo.fieldState f') = VNull
     /\ FieldState.lastUpdate (FieldInfo.fieldState f') = Date_now (ticks st)
     /\ validatorCalls st' = validatorCalls st
     /\ FieldState.validator (FieldInfo.fieldState f')
        = FieldState.validator (FieldInfo.fieldState f)
     /\ FieldState.defaultValue (FieldInfo.fieldState f')
        = FieldState.defaultValue (FieldInfo.fieldState f)
     /\ (forall other : string,
            other <> field ->
            getField (fields st') other = getField (fields st) other)).
Proof.
  intros Hget. split.
  - intros Hnull. now apply clearValue_throws.
  - intros Hobject.
    assert (Hinit : get_member (Props.initialValues (props st)) field
                    = Ok (prop (Props.initialValues (props st)) field)).
    { unfold get_member. now rewrite Hobject. }
    rewrite (clearValue_run st field f _ Hget Hinit).
    eexists. eexists. split; [reflexivity|]. simpl.
    split; [apply getField_update_store_same; exact Hget|].
    repeat split; try reflexivity.
    intros other Hother. now apply getField_update_store_other.
Qed.

End FieldApiFacts.

(** ** The registry *)

Lemma getField_app_last (fs : list FieldInfo.t) (x : FieldInfo.t)
  (name : string) :
  getField (fs ++ [x]) name
  = match getField fs name with
    | Some f => Some f
    | None => if (FieldInfo.name x =? name)%string then Some x else None
    end.
Proof.
  unfold getField. induction fs as [|y r IH]; simpl; [reflexivity|].
  destruct (FieldInfo.name y =? name)%string; [reflexivity|apply IH].
Qed.

Lemma getField_filter_same (fs : list FieldInfo.t) (name : string) :
  getField
    (filter (fun info => negb (FieldInfo.name info =? name)%string) fs) name
  = None.
Proof.
  apply getField_None. intros Hin.
  apply in_map_iff in Hin as [x [Hname Hin]].
  apply filter_In in Hin as [_ Hkeep].
  rewrite Hname, String.eqb_refl in Hkeep. discriminate.
Qed.



Lemma filter_names_NoDup (p : FieldInfo.t -> bool) (fs : list FieldInfo.t) :
  NoDup (map FieldInfo.name fs) ->
  NoDup (map FieldInfo.name (filter p fs)).
Proof.
  induction fs as [|y r IH]; simpl; intros Hnd; [constructor|].
  inversion Hnd as [|? ? Hnotin Hnd']; subst.
  destruct (p y); simpl; [|now apply IH].
  constructor; [|now apply IH].
  intros Hin. apply Hnotin.
  apply in_map_iff in Hin as [x [Hname Hin]].
  apply filter_In in Hin as [Hin _].
  rewrite <- Hname. now apply in_map.
Qed.

Section RegistryFacts.

Context {H : HelpersT} {E : EnvT}.

(** The outcome of [registerField] for a field name that is not empty. *)
Lemma registerField_run (st : Form) (field : string) (type dv : val)
  (fieldDisabled : bool) (validationRules : val) (step : option Z) :
  field <> "" ->
  let p := props st in
  let defaultValue := default_param dv VNull in
  let validator :=
    if Props.disableValidation p then None
    else Some (createValidatorFromConstraints
                 (opt_prop (opt_prop (Props.schema p) field) "constraints")
                 validationRules field (Props.table p)) in
  let existing := getField (fields st) field in
  let looked_up :=
    nullish_coalesce (deepGet (Props.initialValues p) field) defaultValue in
  let initialValue :=
    match existing with
    | Some e =>
        nullish_coalesce (FieldState.value (FieldInfo.fieldState e)) looked_up
    | None => looked_up
    end in
  let revalidate :=
    match existing with
    | Some e => truthy (FieldState.error (FieldInfo.fieldState e))
    | None => false
    end in
  let initialError :=
    if revalidate
    then match validator with
         | Some v => v initialValue
         | None => VUndefined
         end
    else VNull in
  let fieldId :=
    match existing with
    | Some e => FieldState.fieldId (FieldInfo.fieldState e)
    | None => "id-" ++ uuid (uuids st)
    end in
  let fieldInfo :=
    FieldInfo.mk field type
      (step_or_1 (match step with Some n => n | None => 1 end))
      (FieldState.mk fieldId initialValue initialError
         (Props.disabled p || fieldDisabled
          || truthy (opt_prop (opt_prop (Props.schema p) field) "autocolumn"))
         defaultValue validator (Date_now (ticks st)))
      (nullish_coalesce (opt_prop (Props.schema p) field) (VObj [])) in
  formApi.registerField (Some field) type dv fieldDisabled validationRules
    step st
  = Ok (Some fieldInfo,
        mkForm p
          (match existing with
           | Some _ =>
               filter (fun info => negb (FieldInfo.name info =? field)%string)
                 (fields st) ++ [fieldInfo]
           | None => fields st ++ [fieldInfo]
           end)%list
          (currentStep st) (S (uuids st)) (S (ticks st))
          (validatorCalls st
           ++ match validator with
              | Some _ => if revalidate then [(field, initialValue)] else []
              | None => []
              end)%list).
Proof.
  intros Hname. simpl.
  unfold formApi.registerField.
  apply String.eqb_neq in Hname. rewrite Hname.
  unfold bind, gets, Helpers_uuid, now, modify, ret. simpl.
  destruct (getField (fields st) field) as [e|]; simpl.
  - destruct (truthy (FieldState.error (FieldInfo.fieldState e))); simpl.
    + destruct (Props.disableValidation (props st)); simpl.
      * unfold set_fields. simpl. now rewrite app_nil_r.
      * reflexivity.
    + unfold set_fields. simpl.
      destruct (Props.disableValidation (props st)); simpl;
        now rewrite app_nil_r.
  - unfold set_fields. simpl.
    destruct (Props.disableValidation (props st)); simpl;
      now rewrite app_nil_r.
Qed.


End RegistryFacts.

(** ** The step controller *)

(** C6, as the code has it.  [changeStep] moves [currentStep] and nothing
    else: "next" adds one, "prev" gives [max(1, currentStep - 1)] and so
    stays at step 1, "first" gives 1, "specific" gives [number] when it is a
    number other than zero and changes nothing when [number] is zero, [NaN]
    or absent, and any other type changes nothing. *)
Theorem changeStep_transitions (st : Form) (number : option number) :
  formApi.changeStep (VStr "next") number st
  = Ok (tt, set_currentStep (currentStep st + 1) st)
  /\ formApi.changeStep (VStr "prev") number st
     = Ok (tt, set_currentStep (Z.max 1 (currentStep st - 1)) st)
  /\ (currentStep st = 1 ->
      formApi.changeStep (VStr "prev") number st
      = Ok (tt, set_currentStep 1 st))
  /\ formApi.changeStep (VStr "first") number st
     = Ok (tt, set_currentStep 1 st)
  /\ (forall n : Z,
         n <> 0 ->
         formApi.changeStep (VStr "specific") (Some (Int n)) st
         = Ok (tt, set_currentStep n st))
  /\ formApi.changeStep (VStr "specific") (Some (Int 0)) st = Ok (tt, st)
  /\ formApi.changeStep (VStr "specific") (Some NaN) st = Ok (tt, st)
  /\ formApi.changeStep (VStr "specific") None st = Ok (tt, st)
  /\ (forall type : val,
         type <> VStr "next" -> type <> VStr "prev" ->
         type <> VStr "first" -> type <> VStr "specific" ->
         formApi.changeStep type number st = Ok (tt, st)).
Proof.
  repeat split; try reflexivity.
  - intros Hone. unfold formApi.changeStep. simpl. unfold modify.
    now rewrite Hone.
  - intros n Hn. unfold formApi.changeStep. simpl.
    apply Z.eqb_neq in Hn. now rewrite Hn.
  - intros type Hnext Hprev Hfirst Hspecific.
    unfold formApi.changeStep.
    assert (Hne : forall s, type <> VStr s ->
                            strict_equals false type (VStr s) = false).
    { intros s Hs. destruct type as [| |b|n|s'|l|o]; try reflexivity.
      - now destruct n.
      - simpl. apply String.eqb_neq. congruence. }
    now rewrite !Hne by assumption.
Qed.

Section ClearFacts.

Context {H : HelpersT} {E : EnvT}.

(** C10.  Take a field name whose initial value [deepGet] finds in
    [initialValues] although [initialValues] has no property of that very
    name, as for "x.y" in [{x: {y: 5}}].  Registering the name gives the
    field the value found by [deepGet]; clearing the field afterwards gives
    it its default value, not that initial value. *)
Theorem clearValue_misses_nested_initial (st : Form) (field : string)
  (type dv : val) (fieldDisabled : bool) (validationRules : val)
  (step : option Z) :
  field <> "" ->
  getField (fields st) field = None ->
  is_nullish (Props.initialValues (props st)) = false ->
  is_nullish (prop (Props.initialValues (props st)) field) = true ->
  is_nullish (deepGet (Props.initialValues (props st)) field) = false ->
  exists (f : FieldInfo.t) (st1 : Form) (f2 : FieldInfo.t) (st2 : Form),
    formApi.registerField (Some field) type dv fieldDisabled validationRules
      step st = Ok (Some f, st1)
    /\ getField (fields st1) field = Some f
    /\ FieldState.value (FieldInfo.fieldState f)
       = deepGet (Props.initialValues (props st)) field
    /\ fieldApi.clearValue field st1 = Ok (tt, st2)
    /\ getField (fields st2) field = Some f2
    /\ FieldState.value (FieldInfo.fieldState f2) = default_param dv VNull.
Proof.
  intros Hname Hfresh Hobj Hliteral Hdeep.
  pose proof (registerField_run st field type dv fieldDisabled
                validationRules step Hname) as Hrun.
  simpl in Hrun. rewrite Hfresh in Hrun.
  match type of Hrun with _ = Ok (Some ?x, ?y) => set (f := x) in *;
    set (st1 := y) in * end.
  assert (Hget1 : getField (fields st1) field = Some f).
  { unfold st1. simpl. rewrite getField_app_last, Hfresh. simpl.
    now rewrite String.eqb_refl. }
  assert (Hmember : get_member (Props.initialValues (props st1)) field
                    = Ok (prop (Props.initialValues (props st)) field)).
  { unfold st1, get_member. simpl. now rewrite Hobj. }
  pose proof (clearValue_run st1 field f _ Hget1 Hmember) as Hclear.
  exists f, st1. eexists. eexists.
  split; [exact Hrun|]. split; [exact Hget1|].
  split.
  { unfold f. simpl. unfold nullish_coalesce. now rewrite Hdeep. }
  split; [exact Hclear|].
  split.
  { simpl. apply getField_update_store_same. exact Hget1. }
  simpl. unfold nullish_coalesce. now rewrite Hliteral.
Qed.

End ClearFacts.

(** ** Validation of the form *)

Section ValidateFacts.

Context {H : HelpersT} {E : EnvT}.

(** Field-level [validate()] on a registered field. *)
Lemma field_validate_run (st : Form) (f : FieldInfo.t) :
  getField (fields st) (FieldInfo.name f) = Some f ->
  exists st' : Form,
    fieldApi.validate (FieldInfo.name f) st
    = Ok (VBool (negb (truthy (run_validator f))), st')
    /\ fields st'
       = update_store (FieldInfo.name f)
           (fun s =>
              FieldState.mk (FieldState.fieldId s)
                (FieldState.value (FieldInfo.fieldState f)) (run_validator f)
                (FieldState.disabled s) (FieldState.defaultValue s)
                (FieldState.validator s) (Date_now (ticks st)))
           (fields st)
    /\ currentStep st' = currentStep st
    /\ props st' = props st
    /\ validatorCalls st' = (validatorCalls st ++ validator_call f)%list.
Proof.
  intros Hget.
  unfold fieldApi.validate, fieldApi.setValue, bind, get_store.
  rewrite Hget. simpl. rewrite Hget. simpl.
  unfold run_validator, validator_call.
  destruct (FieldState.validator (FieldInfo.fieldState f)) as [v|]; simpl.
  - eexists. split; [reflexivity|]. simpl. repeat split; reflexivity.
  - eexists. split; [reflexivity|]. simpl.
    rewrite app_nil_r. repeat split; reflexivity.
Qed.

(** The [forEach] of form-level [validate] over stores of distinct names
    that the registry holds. *)
Lemma validate_each_run (l : list FieldInfo.t) :
  forall (st : Form) (valid : bool),
    NoDup (map FieldInfo.name l) ->
    (forall x, In x l -> getField (fields st) (FieldInfo.name x) = Some x) ->
    exists st' : Form,
      formApi.validate_each l valid st
      = Ok (valid && forallb (fun f => negb (truthy (run_validator f))) l, st')
      /\ currentStep st' = currentStep st
      /\ props st' = props st
      /\ map FieldInfo.name (fields st') = map FieldInfo.name (fields st)
      /\ (forall other : string,
             ~ In other (map FieldInfo.name l) ->
             getField (fields st') other = getField (fields st) other)
      /\ (forall x,
             In x l ->
             exists x' : FieldInfo.t,
               getField (fields st') (FieldInfo.name x) = Some x'
               /\ FieldState.value (FieldInfo.fieldState x')
                  = FieldState.value (FieldInfo.fieldState x)
               /\ FieldState.error (FieldInfo.fieldState x') = run_validator x
               /\ FieldInfo.step x' = FieldInfo.step x)
      /\ validatorCalls st'
         = (validatorCalls st ++ flat_map validator_call l)%list.
Proof.
  induction l as [|f r IH]; intros st valid Hnd Hheld.
  - exists st. simpl. rewrite andb_true_r, app_nil_r.
    repeat split; try reflexivity. intros x [].
  - simpl in Hnd. inversion Hnd as [|? ? Hnotin Hnd']; subst.
    destruct (field_validate_run st f (Hheld f (or_introl eq_refl)))
      as (st1 & Hrun & Hfields & Hstep & Hprops & Hcalls).
    assert (Hheld1 : forall x, In x r ->
              getField (fields st1) (FieldInfo.name x) = Some x).
    { intros x Hx. rewrite Hfields.
      rewrite getField_update_store_other.
      - apply Hheld. now right.
      - intros Heq. apply Hnotin. rewrite <- Heq. now apply in_map. }
    destruct (IH st1 (if negb (truthy (VBool (negb (truthy (run_validator f)))))
                      then false else valid) Hnd' Hheld1)
      as (st' & Hrest & Hstep' & Hprops' & Hnames' & Hother' & Hsel' & Hcalls').
    exists st'. simpl. unfold bind. rewrite Hrun, Hrest.
    split.
    { f_equal. f_equal. simpl.
      destruct (truthy (run_validator f)), valid; simpl; reflexivity. }
    split; [congruence|]. split; [congruence|].
    split.
    { rewrite Hnames', Hfields. apply update_store_names. }
    split.
    { intros other Hother. rewrite Hother'.
      - rewrite Hfields. apply getField_update_store_other.
        intros ->. apply Hother. now left.
      - intros Hin. apply Hother. now right. }
    split.
    { intros x [<-|Hx].
      - rewrite Hother' by assumption. rewrite Hfields.
        rewrite (getField_update_store_same _ _ _ _
                   (Hheld f (or_introl eq_refl))).
        eexists. split; [reflexivity|]. simpl. repeat split; reflexivity.
      - apply Hsel'. assumption. }
    rewrite Hcalls', Hcalls. now rewrite <- app_assoc.
Qed.


End ValidateFacts.

(** ** Attachment enrichments *)

Lemma length_append (a b : string) :
  String.length (a ++ b) = (String.length a + String.length b)%nat.
Proof.
  induction a as [|c a IH]; simpl; [reflexivity|]. now rewrite IH.
Qed.

Lemma append_cancel_r (a b s : string) : a ++ s = b ++ s -> a = b.
Proof.
  revert b. induction a as [|c a IH]; intros [|d b] Heq; simpl in Heq.
  - reflexivity.
  - apply (f_equal String.length) in Heq. simpl in Heq.
    rewrite length_append in Heq. lia.
  - apply (f_equal String.length) in Heq. simpl in Heq.
    rewrite length_append in Heq. lia.
  - injection Heq as -> Heq. f_equal. now apply IH.
Qed.

Lemma is_attachment_type (f : FieldInfo.t) :
  is_attachment f = true <-> FieldInfo.type f = VStr "attachment".
Proof.
  unfold is_attachment. split.
  - destruct (FieldInfo.type f) as [| |b|[z|]|s|l|o]; simpl;
      try discriminate.
    intros Heq. apply String.eqb_eq in Heq. now subst s.
  - intros ->. reflexivity.
Qed.

(** The three cases of the [url] of an attachment value. *)
Lemma first_url_cases (value : val) :
  first_url value
  = match value with
    | VArr (first :: _) => if is_nullish first then VNull else prop first "url"
    | _ => VNull
    end.
Proof.
  destruct value as [| |b|n|s|[|first l]|o]; try reflexivity.
  unfold first_url. simpl. now destruct (is_nullish first).
Qed.

Lemma own_enrichments_fold (fs : list FieldInfo.t) (k : string) :
  forall acc : obj,
    NoDup (map FieldInfo.name fs) ->
    own (fold_left
           (fun enrichments field =>
              if is_attachment field
              then obj_set enrichments (FieldInfo.name field ++ "_first")
                     (first_url (FieldState.value (FieldInfo.fieldState field)))
              else enrichments)
           fs acc) k
    = match find (fun f => is_attachment f
                           && (FieldInfo.name f ++ "_first" =? k)%string) fs
      with
      | Some f =>
          Some (first_url (FieldState.value (FieldInfo.fieldState f)))
      | None => own acc k
      end.
Proof.
  induction fs as [|f r IH]; simpl; intros acc Hnd; [reflexivity|].
  inversion Hnd as [|? ? Hnotin Hnd']; subst.
  rewrite IH by assumption.
  destruct (is_attachment f) eqn:Hatt; simpl.
  - destruct (FieldInfo.name f ++ "_first" =? k)%string eqn:Hk.
    + apply String.eqb_eq in Hk.
      destruct (find _ r) as [g|] eqn:Hfind.
      * apply find_some in Hfind as [Hin Hg].
        apply andb_true_iff in Hg as [_ Hg]. apply String.eqb_eq in Hg.
        exfalso. apply Hnotin.
        rewrite <- Hk in Hg. apply append_cancel_r in Hg.
        rewrite <- Hg. now apply in_map.
      * subst k. apply own_obj_set_same.
    + destruct (find _ r); [reflexivity|].
      apply own_obj_set_other. now apply String.eqb_neq.
  - reflexivity.
Qed.

(** C9.  In a registry with one field per name, the enrichments bind, for
    every field of type "attachment", the key [<name>_first] to the [url]
    of the first element of the value when the value is an array whose
    first element is present, and to [null] when the value is an empty
    array, an array whose first element is absent, or no array at all; and
    every key of the enrichments comes from a field of type "attachment",
    so the other fields contribute nothing. *)
Theorem enrichments_spec (fs : list FieldInfo.t) :
  NoDup (map FieldInfo.name fs) ->
  (forall f : FieldInfo.t,
      In f fs -> FieldInfo.type f = VStr "attachment" ->
      own_property (enrichments fs) (FieldInfo.name f ++ "_first")
      = Some match FieldState.value (FieldInfo.fieldState f) with
             | VArr (first :: _) =>
                 if is_nullish first then VNull else prop first "url"
             | _ => VNull
             end)
  /\ (forall (k : string) (v : val),
         own_property (enrichments fs) k = Some v ->
         exists f : FieldInfo.t,
           In f fs /\ FieldInfo.type f = VStr "attachment"
           /\ k = FieldInfo.name f ++ "_first").
Proof.
  intros Hnd. unfold enrichments, deriveBindingEnrichments. simpl. split.
  - intros f Hin Htype. apply is_attachment_type in Htype.
    rewrite own_enrichments_fold by assumption.
    destruct (find _ fs) as [g|] eqn:Hfind.
    + apply find_some in Hfind as [Hg Hkey].
      apply andb_true_iff in Hkey as [_ Hkey]. apply String.eqb_eq in Hkey.
      apply append_cancel_r in Hkey.
      assert (g = f).
      { pose proof (getField_unique _ _ Hnd Hg) as H1.
        pose proof (getField_unique _ _ Hnd Hin) as H2.
        rewrite Hkey in H1. congruence. }
      subst g. now rewrite first_url_cases.
    + exfalso.
      apply (find_none _ _ Hfind) in Hin.
      now rewrite Htype, String.eqb_refl in Hin.
  - intros k v Hown.
    rewrite own_enrichments_fold in Hown by assumption.
    destruct (find _ fs) as [g|] eqn:Hfind; [|discriminate].
    apply find_some in Hfind as [Hg Hkey].
    apply andb_true_iff in Hkey as [Hatt Hkey]. apply String.eqb_eq in Hkey.
    exists g. split; [assumption|]. split; [|now symmetry].
    now apply is_attachment_type.
Qed.

(** ** [Array.prototype.sort] *)

Lemma sort_insert_In {A : Type} (cmp : A -> A -> Z) (p : A) (l : list A)
  (x : A) :
  In x (sort_insert cmp p l) <-> x = p \/ In x l.
Proof.
  induction l as [|y ys IH]; simpl.
  - intuition auto.
  - destruct (cmp p y <? 0); simpl; [rewrite IH|]; intuition auto.
Qed.

Lemma sort_insert_perm {A : Type} (cmp : A -> A -> Z) (p : A) (l : list A) :
  Permutation (sort_insert cmp p l) (p :: l).
Proof.
  induction l as [|y ys IH]; simpl; [reflexivity|].
  destruct (cmp p y <? 0); [|reflexivity].
  rewrite IH. apply perm_swap.
Qed.

Lemma sort_fold_perm {A : Type} (cmp : A -> A -> Z) (l : list A) :
  forall acc : list A,
    Permutation (fold_left (fun acc x => sort_insert cmp x acc) l acc)
      (l ++ acc).
Proof.
  induction l as [|x r IH]; intros acc; simpl; [reflexivity|].
  rewrite IH, sort_insert_perm. symmetry. apply Permutation_middle.
Qed.

(** [sort] rearranges the array. *)
Lemma Array_sort_perm {A : Type} (cmp : A -> A -> Z) (l : list A) :
  Permutation (Array_sort cmp l) l.
Proof.
  unfold Array_sort. rewrite <- Permutation_rev, sort_fold_perm.
  now rewrite app_nil_r.
Qed.

Lemma StronglySorted_app {A : Type} (R : A -> A -> Prop) (l1 l2 : list A) :
  StronglySorted R l1 -> StronglySorted R l2 ->
  (forall x y, In x l1 -> In y l2 -> R x y) ->
  StronglySorted R (l1 ++ l2).
Proof.
  induction l1 as [|a l1 IH]; simpl; intros H1 H2 Hcross; [assumption|].
  inversion H1 as [|? ? Hs Hall]; subst.
  constructor.
  - apply IH; auto.
  - apply Forall_app. split; [assumption|].
    apply Forall_forall. intros y Hy. apply Hcross; auto.
Qed.

Lemma StronglySorted_rev {A : Type} (R : A -> A -> Prop) (l : list A) :
  StronglySorted (fun a b => R b a) l -> StronglySorted R (rev l).
Proof.
  induction 1 as [|a l Hs IH Hall]; simpl; [constructor|].
  apply StronglySorted_app; [assumption|repeat constructor|].
  intros x y Hx [<-|[]]. apply in_rev in Hx.
  now apply (proj1 (Forall_forall _ _) Hall).
Qed.

Section NumericSort.

Variables (A : Type) (rank : A -> Z).

Lemma sort_insert_descending (p : A) (l : list A) :
  StronglySorted (fun a b => rank b <= rank a) l ->
  StronglySorted (fun a b => rank b <= rank a)
    (sort_insert (fun a b => rank a - rank b) p l).
Proof.
  induction 1 as [|y ys Hs IH Hall]; simpl; [repeat constructor|].
  destruct (rank p - rank y <? 0) eqn:Hlt.
  - apply Z.ltb_lt in Hlt. constructor; [assumption|].
    apply Forall_forall. intros x Hx. apply sort_insert_In in Hx as [->|Hx].
    + lia.
    + now apply (proj1 (Forall_forall _ _) Hall).
  - apply Z.ltb_ge in Hlt. constructor; [now constructor|].
    constructor; [lia|].
    apply Forall_forall. intros x Hx.
    pose proof (proj1 (Forall_forall _ _) Hall x Hx) as Hxy.
    simpl in Hxy. lia.
Qed.

(** With a comparison function that subtracts ranks, [sort] puts the array
    in ascending order of rank. *)
Lemma Array_sort_ascending (l : list A) :
  StronglySorted (fun a b => rank a <= rank b)
    (Array_sort (fun a b => rank a - rank b) l).
Proof.
  unfold Array_sort. apply StronglySorted_rev.
  assert (Hgen : forall acc,
            StronglySorted (fun a b => rank b <= rank a) acc ->
            StronglySorted (fun a b => rank b <= rank a)
              (fold_left
                 (fun acc x => sort_insert (fun a b => rank a - rank b) x acc)
                 l acc)).
  { induction l as [|x r IH]; simpl; intros acc Hacc; [assumption|].
    apply IH. now apply sort_insert_descending. }
  apply Hgen. constructor.
Qed.

End NumericSort.

(** With a comparison function that never answers a negative number,
    [sort] leaves the array in the order it had. *)
Lemma Array_sort_never_negative {A : Type} (cmp : A -> A -> Z) (l : list A) :
  (forall a b, 0 <= cmp a b) -> Array_sort cmp l = l.
Proof.
  intros Hcmp. unfold Array_sort.
  assert (Hins : forall x acc, sort_insert cmp x acc = x :: acc).
  { intros x [|y ys]; simpl; [reflexivity|].
    destruct (cmp x y <? 0) eqn:Hlt; [|reflexivity].
    apply Z.ltb_lt in Hlt. specialize (Hcmp x y). lia. }
  assert (Hgen : forall acc,
            fold_left (fun acc x => sort_insert cmp x acc) l acc
            = (rev l ++ acc)%list).
  { induction l as [|x r IH]; simpl; intros acc; [reflexivity|].
    rewrite IH, Hins. now rewrite <- app_assoc. }
  rewrite Hgen, app_nil_r. apply rev_involutive.
Qed.

Lemma compare_lastUpdate_never_negative (a b : SortedField) :
  0 <= compare_lastUpdate a b.
Proof.
  unfold compare_lastUpdate, Number_of_bool.
  destruct (sf_lastUpdate a >? sf_lastUpdate b); lia.
Qed.

(** ** The form value *)

Lemma derived_keys (getProp : FieldInfo.t -> val) (fs : list FieldInfo.t)
  (k : string) :
  forall acc : obj,
    In k (map fst
            (fold_left
               (fun map field =>
                  obj_set map (FieldInfo.name field) (getProp field))
               fs acc)) ->
    In k (map FieldInfo.name fs) \/ In k (map fst acc).
Proof.
  induction fs as [|f r IH]; simpl; intros acc Hin; [now right|].
  apply IH in Hin as [Hin|Hin]; [now left; right|].
  apply obj_set_keys in Hin as [->|Hin]; [now left; left|now right].
Qed.

Lemma with_lastUpdate_total (fs : list FieldInfo.t) (entries : obj) :
  (forall k, In k (map fst entries) -> In k (map FieldInfo.name fs)) ->
  exists l : list SortedField,
    with_lastUpdate fs entries = Ok l
    /\ map (fun f => (key f, sf_value f)) l = entries.
Proof.
  induction entries as [|[k v] r IH]; simpl; intros Hkeys.
  - now exists [].
  - destruct (getField fs k) as [field|] eqn:Hget.
    + destruct IH as (l & Hl & Hmap); [auto|].
      rewrite Hl. eexists. split; [reflexivity|]. simpl. now rewrite Hmap.
    + apply getField_None in Hget. exfalso. apply Hget, Hkeys. now left.
Qed.

Section FormValueFacts.

Context {H : HelpersT} {E : EnvT}.

(** In every state the form value is the clone of [initialValues] with the
    field values deep-set in the order in which [Object.entries] enumerates
    [values], whatever the [lastUpdate] of the fields, and the enrichments
    deep-set after them: every key of [values] has its field, and the
    comparison function answers [true] or [false], never a negative number,
    so [sort] moves nothing.  It throws only if a [deepSet] does. *)
Lemma formValue_in_enumeration_order (st : Form) :
  formValue st
  = match deepSet_all
            (cloneDeep (js_or (Props.initialValues (props st)) (VObj [])))
            (Object_entries (values (fields st))) with
    | TypeError => TypeError
    | Ok formValue' =>
        deepSet_all formValue' (Object_entries (enrichments (fields st)))
    end.
Proof.
  unfold formValue, deriveFormValue.
  change (js_or (values (fields st)) (VObj [])) with (values (fields st)).
  change (js_or (enrichments (fields st)) (VObj []))
    with (enrichments (fields st)).
  destruct (with_lastUpdate_total (fields st)
              (Object_entries (values (fields st)))) as (l & Hl & Hmap).
  { intros k Hin. unfold values, deriveFieldProperty in Hin. simpl in Hin.
    apply in_map_iff in Hin as [e [Hk Hin]].
    apply (Permutation_in _ (own_entries_perm _)) in Hin.
    assert (Hkey : In k (map fst
              (fold_left
                 (fun map field =>
                    obj_set map (FieldInfo.name field)
                      (FieldState.value (FieldInfo.fieldState field)))
                 (fields st) []))).
    { rewrite <- Hk. now apply in_map. }
    apply derived_keys in Hkey as [Hkey|[]]. assumption. }
  rewrite Hl.
  rewrite (Array_sort_never_negative _ _ compare_lastUpdate_never_negative).
  now rewrite Hmap.
Qed.

End FormValueFacts.

(** ** One field per name *)

Section Invariant.

Context {H : HelpersT} {E : EnvT}.

Lemma keeps_names_ret {A : Type} (a : A) : keeps_names (ret a).
Proof. intros st a' st' [= _ <-]. reflexivity. Qed.

Lemma keeps_names_throw {A : Type} : keeps_names (@throw A).
Proof. intros st a st' Hrun. discriminate. Qed.

Lemma keeps_names_bind {A B : Type} (c : M A) (k : A -> M B) :
  keeps_names c -> (forall a, keeps_names (k a)) -> keeps_names (bind c k).
Proof.
  intros Hc Hk st b st' Hrun. unfold bind in Hrun.
  destruct (c st) as [[a st1]|] eqn:Hcst; [|discriminate].
  rewrite (Hk a _ _ _ Hrun). exact (Hc _ _ _ Hcst).
Qed.

Lemma keeps_names_gets {A : Type} (f : Form -> A) : keeps_names (gets f).
Proof. intros st a st' [= _ <-]. reflexivity. Qed.

Lemma keeps_names_get_store (name : string) : keeps_names (get_store name).
Proof.
  intros st a st'. unfold get_store.
  destruct (getField (fields st) name); [|discriminate].
  intros [= _ <-]. reflexivity.
Qed.

Lemma keeps_names_now : keeps_names now.
Proof. intros st a st' [= _ <-]. reflexivity. Qed.

Lemma keeps_names_call_validator (field : string)
  (validator : option (val -> val)) (value : val) :
  keeps_names (call_validator field validator value).
Proof.
  destruct validator; simpl; [|apply keeps_names_ret].
  intros st a st' [= _ <-]. reflexivity.
Qed.

Lemma keeps_names_update (name : string) (g : FieldState.t -> FieldState.t) :
  keeps_names (update name g).
Proof.
  intros st a st' [= _ <-]. simpl. apply update_store_names.
Qed.

Lemma keeps_names_set_currentStep (f : Form -> Z) :
  keeps_names (modify (fun st => set_currentStep (f st) st)).
Proof. intros st a st' [= _ <-]. reflexivity. Qed.

Ltac keeps :=
  repeat (cbv beta zeta;
          match goal with
          | |- keeps_names (ret _) => apply keeps_names_ret
          | |- keeps_names throw => apply keeps_names_throw
          | |- keeps_names (gets _) => apply keeps_names_gets
          | |- keeps_names (get_store _) => apply keeps_names_get_store
          | |- keeps_names now => apply keeps_names_now
          | |- keeps_names (call_validator _ _ _) =>
              apply keeps_names_call_validator
          | |- keeps_names (update _ _) => apply keeps_names_update
          | |- keeps_names (bind _ _) => apply keeps_names_bind; [|intro]
          | |- keeps_names (if ?c then _ else _) => destruct c
          | |- keeps_names (match ?r with Ok _ => _ | TypeError => _ end) =>
              destruct r
          end).

Lemma keeps_names_setValue (field : string) (value : val)
  (skipCheck same_ref : bool) :
  keeps_names (fieldApi.setValue field value skipCheck same_ref).
Proof.
  unfold fieldApi.setValue. keeps.
Qed.

Lemma keeps_names_clearValue (field : string) :
  keeps_names (fieldApi.clearValue field).
Proof.
  unfold fieldApi.clearValue. keeps.
Qed.

Lemma keeps_names_updateValidation (field : string) (rules : val) :
  keeps_names (fieldApi.updateValidation field rules).
Proof.
  unfold fieldApi.updateValidation. keeps.
  apply keeps_names_setValue.
Qed.

Lemma keeps_names_setDisabled (field : string) (fieldDisabled : bool) :
  keeps_names (fieldApi.setDisabled field fieldDisabled).
Proof. unfold fieldApi.setDisabled. keeps. Qed.

Lemma keeps_names_field_validate (field : string) :
  keeps_names (fieldApi.validate field).
Proof. unfold fieldApi.validate. keeps. apply keeps_names_setValue. Qed.

Lemma keeps_names_validate (onlyCurrentStep : bool) :
  keeps_names (formApi.validate onlyCurrentStep).
Proof.
  unfold formApi.validate. keeps.
  match goal with |- keeps_names (formApi.validate_each ?l _) =>
    generalize l end.
  intros l. generalize true.
  induction l as [|f r IH]; intros valid; simpl; keeps.
  - apply keeps_names_field_validate.
  - apply IH.
Qed.

Lemma keeps_names_clear : keeps_names formApi.clear.
Proof.
  unfold formApi.clear. keeps.
  match goal with |- keeps_names (formApi.clear_each ?l) => generalize l end.
  intros l. induction l as [|f r IH]; simpl; keeps.
  - apply keeps_names_clearValue.
  - apply IH.
Qed.

Lemma keeps_names_changeStep (type : val) (number : option number) :
  keeps_names (formApi.changeStep type number).
Proof.
  unfold formApi.changeStep.
  keeps;
    repeat match goal with
           | |- keeps_names (match ?n with _ => _ end) => destruct n
           end;
    keeps;
    try apply (keeps_names_set_currentStep (fun st => currentStep st + 1));
    try apply (keeps_names_set_currentStep
                 (fun st => Z.max 1 (currentStep st - 1)));
    try (intros st a st' [= _ <-]; reflexivity).
Qed.

Lemma keeps_names_setStep (step : option number) :
  keeps_names (formApi.setStep step).
Proof.
  unfold formApi.setStep.
  keeps;
    repeat match goal with
           | |- keeps_names (match ?n with _ => _ end) => destruct n
           end;
    keeps; intros st a st' [= _ <-]; reflexivity.
Qed.

Lemma registerField_NoDup (st : Form) (field : option string)
  (type dv : val) (fieldDisabled : bool) (rules : val) (step : option Z)
  (r : option FieldInfo.t) (st' : Form) :
  NoDup (map FieldInfo.name (fields st)) ->
  formApi.registerField field type dv fieldDisabled rules step st
  = Ok (r, st') ->
  NoDup (map FieldInfo.name (fields st')).
Proof.
  intros Hnd Hrun.
  destruct field as [field|]; [|now injection Hrun as _ <-].
  destruct (string_dec field "") as [->|Hname];
    [now injection Hrun as _ <-|].
  rewrite (registerField_run st field type dv fieldDisabled rules step Hname)
    in Hrun.
  injection Hrun as _ <-. simpl.
  assert (Happ : forall l x,
            NoDup (map FieldInfo.name l) ->
            getField l (FieldInfo.name x) = None ->
            NoDup (map FieldInfo.name (l ++ [x]))).
  { intros l x Hl Hx. rewrite map_app. simpl.
    apply NoDup_app; [assumption|repeat constructor; intros []|].
    intros a Ha [<-|[]]. now apply getField_None in Hx. }
  destruct (getField (fields st) field) eqn:Hget.
  - apply Happ; [now apply filter_names_NoDup|]. simpl.
    apply getField_filter_same.
  - apply Happ; assumption.
Qed.

(** Every reachable state holds at most one field per name. *)
Lemma reachable_NoDup (p : Props.t) (st : Form) :
  reachable p st -> NoDup (map FieldInfo.name (fields st)).
Proof.
  induction 1 as [|st st' a Hreach IH Hrun]; [constructor|].
  assert (Hkeep : forall c : M unit, keeps_names c -> c st = Ok (tt, st') ->
            NoDup (map FieldInfo.name (fields st'))).
  { intros c Hc Hcrun. now rewrite (Hc _ _ _ Hcrun). }
  destruct a; simpl in Hrun.
  - unfold bind in Hrun.
    destruct (formApi.registerField _ _ _ _ _ _ st) as [[r st1]|] eqn:Hreg;
      [|discriminate].
    injection Hrun as <-. eapply registerField_NoDup; eassumption.
  - eapply Hkeep; [|exact Hrun]. keeps. apply keeps_names_validate.
  - eapply Hkeep; [|exact Hrun]. apply keeps_names_clear.
  - eapply Hkeep; [|exact Hrun]. apply keeps_names_changeStep.
  - eapply Hkeep; [|exact Hrun]. apply keeps_names_setStep.
  - eapply Hkeep; [|exact Hrun]. keeps. apply keeps_names_setValue.
  - eapply Hkeep; [|exact Hrun]. apply keeps_names_clearValue.
  - eapply Hkeep; [|exact Hrun]. apply keeps_names_updateValidation.
  - eapply Hkeep; [|exact Hrun]. apply keeps_names_setDisabled.
  - eapply Hkeep; [|exact Hrun]. keeps. apply keeps_names_field_validate.
  - injection Hrun as <-. exact IH.
Qed.

Lemma run_all_reachable (p : Props.t) (l : list action) :
  forall st st' : Form,
    reachable p st -> run_all l st = Ok (tt, st') -> reachable p st'.
Proof.
  induction l as [|a r IH]; simpl; intros st st' Hreach Hrun.
  - injection Hrun as <-. exact Hreach.
  - unfold bind in Hrun.
    destruct (run a st) as [[[] st1]|] eqn:Ha; [|discriminate].
    apply (IH st1); [|exact Hrun].
    eapply reachable_step; eassumption.
Qed.

End Invariant.

(** ** Consequences in reachable states *)

Section ReachableFacts.

Context {H : HelpersT} {E : EnvT}.

(** In a reachable state the form is valid exactly when no registered field
    has an error other than [null] and [undefined]. *)
Lemma valid_reachable (p : Props.t) (st : Form) :
  reachable p st ->
  (valid (fields st) = true <->
   forall f, In f (fields st) ->
             is_nullish (FieldState.error (FieldInfo.fieldState f)) = true).
Proof.
  intros Hreach. pose proof (reachable_NoDup p st Hreach) as Hnd.
  pose proof (own_deriveFieldProperty (fields st)
                (fun f => FieldState.error (FieldInfo.fieldState f)))
    as Hbind.
  unfold valid, Array_some, errors.
  destruct (derived_NoDup (fields st)
              (fun f => FieldState.error (FieldInfo.fieldState f)))
    as (o & Ho & Hkeys).
  rewrite Ho in *. simpl in Hbind.
  rewrite negb_true_iff. split.
  - intros Hnone f Hin.
    destruct (is_nullish _) eqn:He; [reflexivity|].
    assert (Hex : existsb (fun error => negb (is_nullish error))
                    (Object_values (VObj o)) = true).
    { apply existsb_exists.
      exists (FieldState.error (FieldInfo.fieldState f)). split.
      - apply Object_values_In; [assumption|].
        exists (FieldInfo.name f). rewrite Hbind by assumption.
        now rewrite (getField_unique _ _ Hnd Hin).
      - now rewrite He. }
    congruence.
  - intros Hall.
    destruct (existsb _ _) eqn:Hex; [|reflexivity].
    apply existsb_exists in Hex as [e [Hin He]].
    apply Object_values_In in Hin as [name Hown]; [|assumption].
    rewrite Hbind in Hown by assumption.
    destruct (getField (fields st) name) as [f|] eqn:Hget; [|discriminate].
    injection Hown as <-. apply getField_In in Hget as [Hin _].
    rewrite (Hall _ Hin) in He. discriminate.
Qed.

(** After a [setValue] that is not skipped, [values] binds the name of the
    field to the value that was set. *)
Lemma values_after_setValue (st st' : Form) (field : string)
  (value r : val) (same_ref : bool) :
  NoDup (map FieldInfo.name (fields st)) ->
  fieldApi.setValue field value true same_ref st = Ok (r, st') ->
  own_property (values (fields st')) field = Some value.
Proof.
  intros Hnd Hrun.
  assert (Hnd' : NoDup (map FieldInfo.name (fields st')))
    by now rewrite (keeps_names_setValue _ _ _ _ _ _ _ Hrun).
  destruct (getField (fields st) field) as [f|] eqn:Hget.
  - rewrite (setValue_run st field f value true same_ref Hget eq_refl)
      in Hrun.
    injection Hrun as _ <-.
    unfold values. rewrite own_deriveFieldProperty by assumption.
    simpl. now rewrite (getField_update_store_same _ _ _ _ Hget).
  - unfold fieldApi.setValue, bind, get_store in Hrun.
    rewrite Hget in Hrun. discriminate.
Qed.

End ReachableFacts.

(** Sorting by [compare_ascending] puts the entries in ascending order of
    [lastUpdate] and keeps all of them. *)
Lemma compare_ascending_sorts (mapped : list SortedField) :
  StronglySorted (fun a b => sf_lastUpdate a <= sf_lastUpdate b)
    (Array_sort compare_ascending mapped)
  /\ Permutation (Array_sort compare_ascending mapped) mapped.
Proof.
  split.
  - apply (Array_sort_ascending SortedField sf_lastUpdate).
  - apply Array_sort_perm.
Qed.

(** ** The properties at sample forms *)

(** C1, at the input where the code departs from it.  The form
    [nested_conflict_form] is reachable; in it the nested field "x.y" holds
    7 and was written after the JSON field "x", which holds [{y: 2}].  [deriveFormValue]
    deep-sets "x.y" first and "x" last, so the earlier write wins and the
    form value is [{x: {y: 2}}]; deep-setting in ascending order of
    [lastUpdate] gives [{x: {y: 7}}]. *)
Theorem formValue_later_write_lost :
  reachable (H := specHelpers) (E := sampleEnv) (sampleProps (VObj []))
    nested_conflict_form
  /\ (exists nested json : FieldInfo.t,
      getField (fields nested_conflict_form) "x.y" = Some nested
      /\ getField (fields nested_conflict_form) "x" = Some json
      /\ FieldState.value (FieldInfo.fieldState nested) = VNum (Int 7)
      /\ FieldState.value (FieldInfo.fieldState json)
         = VObj [("y", VNum (Int 2))]
      /\ FieldState.lastUpdate (FieldInfo.fieldState json)
         < FieldState.lastUpdate (FieldInfo.fieldState nested))
  /\ formValue (H := specHelpers) nested_conflict_form
     = Ok (VObj [("x", VObj [("y", VNum (Int 2))])])
  /\ formValue_ascending (H := specHelpers) nested_conflict_form
     = Ok (VObj [("x", VObj [("y", VNum (Int 7))])]).
Proof.
  split.
  { apply (run_all_reachable (sampleProps (VObj [])) nested_conflict_calls
             (initialForm (sampleProps (VObj [])))); [apply reachable_init|].
    vm_compute. reflexivity. }
  split.
  - eexists. eexists.
    split; [vm_compute; reflexivity|].
    split; [vm_compute; reflexivity|].
    split; [reflexivity|]. split; [reflexivity|].
    vm_compute. reflexivity.
  - split; vm_compute; reflexivity.
Qed.


Ltac distinct_names :=
  vm_compute;
  repeat (constructor; [simpl; intuition discriminate|]);
  constructor.

(** An instance at [required_form], for the empty name. *)
Lemma registerField_without_name_witness :
  formApi.registerField (H := specHelpers) (E := sampleEnv) (Some "")
    (VStr "text") VUndefined false VUndefined None required_form
  = Ok (None, required_form).
Proof.
  apply registerField_without_name. right. reflexivity.
Defined.





(** Instances at [third_step_form]. *)
Lemma changeStep_transitions_witness :
  currentStep third_step_form = 3
  /\ formApi.changeStep (VStr "specific") (Some (Int 4)) third_step_form
     = Ok (tt, set_currentStep 4 third_step_form)
  /\ formApi.changeStep (VStr "submit") None third_step_form
     = Ok (tt, third_step_form).
Proof.
  destruct (changeStep_transitions third_step_form None)
    as (_ & _ & _ & _ & Hspecific & _ & _ & _ & Hother).
  split; [reflexivity|]. split.
  - apply Hspecific. discriminate.
  - apply Hother; discriminate.
Defined.

(** Where [changeStep] departs from the specification.  [number] 0 is
    numeric, and [changeStep] with type "specific" leaves the form on step
    3 instead of moving it to step 0. *)
Lemma changeStep_specific_zero :
  exists st' : Form,
    formApi.changeStep (VStr "specific") (Some (Int 0)) third_step_form
    = Ok (tt, st')
    /\ currentStep st' = 3
    /\ currentStep st' <> 0.
Proof.
  eexists. split; [reflexivity|]. split; [reflexivity|]. discriminate.
Qed.

(** Instances: at [uninitialised_form] clearing the field "a" throws; at
    [required_form], whose initial values are the empty object, the field
    "a" is cleared. *)
Lemma clearValue_spec_witness :
  (exists f : FieldInfo.t,
      getField (fields uninitialised_form) "a" = Some f
      /\ Props.initialValues (props uninitialised_form) = VUndefined
      /\ fieldApi.clearValue (E := sampleEnv) "a" uninitialised_form
         = TypeError)
  /\ exists (f f' : FieldInfo.t) (st' : Form),
       getField (fields required_form) "a" = Some f
       /\ fieldApi.clearValue (E := sampleEnv) "a" required_form
          = Ok (tt, st')
       /\ getField (fields st') "a" = Some f'
       /\ FieldState.value (FieldInfo.fieldState f') = VStr ""
       /\ FieldState.error (FieldInfo.fieldState f') = VNull
       /\ validatorCalls st' = validatorCalls required_form.
Proof.
  split.
  - destruct (getField (fields uninitialised_form) "a") as [f|] eqn:Hget;
      [|vm_compute in Hget; discriminate].
    exists f. split; [reflexivity|]. split; [reflexivity|].
    apply (proj1 (clearValue_spec (E := sampleEnv) uninitialised_form "a" f
                    Hget)).
    reflexivity.
  - destruct (getField (fields required_form) "a") as [f|] eqn:Hget;
      [|vm_compute in Hget; discriminate].
    assert (Hold : FieldState.defaultValue (FieldInfo.fieldState f)
                   = VStr "").
    { vm_compute in Hget. injection Hget as <-. reflexivity. }
    destruct (proj2 (clearValue_spec (E := sampleEnv) required_form "a" f
                       Hget) eq_refl)
      as (st' & f' & Hrun & Hget' & Hvalue & Herror & _ & Hcalls & _).
    rewrite Hold in Hvalue.
    exists f, f', st'.
    split; [reflexivity|]. split; [exact Hrun|].
    split; [exact Hget'|]. split; [exact Hvalue|].
    split; [exact Herror|exact Hcalls].
Defined.



(** Instances at [attachments_form]. *)
Lemma enrichments_spec_witness :
  NoDup (map FieldInfo.name (fields attachments_form))
  /\ own_property (enrichments (fields attachments_form)) "files_first"
     = Some (VStr "a")
  /\ own_property (enrichments (fields attachments_form)) "scans_first"
     = Some VNull
  /\ own_property (enrichments (fields attachments_form)) "title_first"
     = None.
Proof.
  assert (Hnd : NoDup (map FieldInfo.name (fields attachments_form)))
    by distinct_names.
  split; [exact Hnd|].
  destruct (enrichments_spec (fields attachments_form) Hnd) as [Hbind Hkeys].
  destruct (getField (fields attachments_form) "files") as [files|] eqn:Hf;
    [|vm_compute in Hf; discriminate].
  destruct (getField (fields attachments_form) "scans") as [scans|] eqn:Hs;
    [|vm_compute in Hs; discriminate].
  assert (Hfiles : FieldInfo.name files = "files"
                   /\ FieldInfo.type files = VStr "attachment"
                   /\ FieldState.value (FieldInfo.fieldState files)
                      = VArr [VObj [("url", VStr "a")];
                              VObj [("url", VStr "b")]]).
  { vm_compute in Hf. injection Hf as <-. repeat split; reflexivity. }
  assert (Hscans : FieldInfo.name scans = "scans"
                   /\ FieldInfo.type scans = VStr "attachment"
                   /\ FieldState.value (FieldInfo.fieldState scans) = VArr []).
  { vm_compute in Hs. injection Hs as <-. repeat split; reflexivity. }
  destruct Hfiles as (Hfn & Hft & Hfv). destruct Hscans as (Hsn & Hst & Hsv).
  apply getField_In in Hf as [Hf _]. apply getField_In in Hs as [Hs _].
  pose proof (Hbind files Hf Hft) as H1. rewrite Hfn, Hfv in H1.
  pose proof (Hbind scans Hs Hst) as H2. rewrite Hsn, Hsv in H2.
  split; [exact H1|]. split; [exact H2|].
  destruct (own_property (enrichments (fields attachments_form))
              "title_first") as [v|] eqn:Ht; [|reflexivity].
  exfalso. vm_compute in Ht. discriminate.
Defined.

(** An instance for the field "x.y" and the initial values
    [{x: {y: 5}}]. *)
Lemma clearValue_misses_nested_initial_witness :
  prop nested_initialValues "x.y" = VUndefined
  /\ deepGet (HelpersT := specHelpers) nested_initialValues "x.y"
     = VNum (Int 5)
  /\ exists (f : FieldInfo.t) (st1 : Form) (f2 : FieldInfo.t) (st2 : Form),
       formApi.registerField (H := specHelpers) (E := sampleEnv)
         (Some "x.y") (VStr "number") (VNum (Int 0)) false VUndefined None
         (initialForm (sampleProps nested_initialValues)) = Ok (Some f, st1)
       /\ FieldState.value (FieldInfo.fieldState f) = VNum (Int 5)
       /\ fieldApi.clearValue (E := sampleEnv) "x.y" st1 = Ok (tt, st2)
       /\ getField (fields st2) "x.y" = Some f2
       /\ FieldState.value (FieldInfo.fieldState f2) = VNum (Int 0).
Proof.
  split; [reflexivity|]. split; [reflexivity|].
  assert (Hname : "x.y" <> "") by discriminate.
  destruct (clearValue_misses_nested_initial (H := specHelpers)
              (E := sampleEnv) (initialForm (sampleProps nested_initialValues))
              "x.y" (VStr "number") (VNum (Int 0)) false VUndefined None
              Hname eq_refl eq_refl eq_refl eq_refl)
    as (f & st1 & f2 & st2 & Hreg & _ & Hvalue & Hclear & Hget2 & Hvalue2).
  exists f, st1, f2, st2.
  split; [exact Hreg|]. split; [exact Hvalue|]. split; [exact Hclear|].
  split; [exact Hget2|exact Hvalue2].
Defined.

(** The scenario of the specification: validation of step 1 fails on the
    empty required field, validation of the empty step 2 succeeds. *)
Example scenario_results :
  exists st : Form,
    scenario (initialForm (sampleProps (VObj []))) = Ok ((false, true), st)
    /\ currentStep st = 2
    /\ valid (fields st) = false.
Proof.
  eexists. split; [vm_compute; reflexivity|]. split; reflexivity.
Qed.

(** * Further properties of the engine *)

(** ** The registry and the derived stores *)

Section RegistryInvariants.

Context {H : HelpersT} {E : EnvT}.

(** X1.  Whatever calls are made into the engine, the registry never holds
    two fields of the same name, registering a name again replacing its
    field; so the name of every registered field looks up that very
    field, which is what the field APIs, bound to names, rely on. *)
Theorem registry_names_unique (p : Props.t) (st : Form) :
  reachable p st ->
  NoDup (map FieldInfo.name (fields st))
  /\ (forall f, In f (fields st) ->
                getField (fields st) (FieldInfo.name f) = Some f).
Proof.
  intros Hreach. pose proof (reachable_NoDup p st Hreach) as Hnd.
  split; [exact Hnd|].
  intros f Hin. now apply getField_unique.
Qed.

(** X2.  In every reachable state the [values] and [errors] mappings have
    exactly the registered names as keys: a name is bound to the value,
    respectively the error, of the field that [getField] finds, and is not
    bound when no field has the name. *)
Theorem derived_stores_in_sync (p : Props.t) (st : Form) (name : string) :
  reachable p st ->
  own_property (values (fields st)) name
  = option_map (fun f => FieldState.value (FieldInfo.fieldState f))
      (getField (fields st) name)
  /\ own_property (errors (fields st)) name
     = option_map (fun f => FieldState.error (FieldInfo.fieldState f))
         (getField (fields st) name).
Proof.
  intros Hreach. pose proof (reachable_NoDup p st Hreach) as Hnd.
  split; apply own_deriveFieldProperty; assumption.
Qed.

(** X3.  In every reachable state a valid form has a valid current step:
    [valid] implies [currentStepValid]. *)
Theorem valid_implies_currentStepValid (p : Props.t) (st : Form) :
  reachable p st ->
  valid (fields st) = true -> currentStepValid st = true.
Proof.
  intros Hreach Hvalid.
  apply currentStepValid_iff. intros f Hin _.
  now apply (proj1 (valid_reachable p st Hreach) Hvalid).
Qed.

End RegistryInvariants.

(** ** The step controller *)

(** X4.  For a step that is a number or absent, [setStep(step)] and
    [changeStep({type: "specific", number: step})] are the same operation:
    both move to a number other than zero and ignore zero, [NaN] and an
    absent argument. *)
Theorem setStep_is_changeStep_specific (number : option number) (st : Form) :
  formApi.setStep number st
  = formApi.changeStep (VStr "specific") number st.
Proof.
  unfold formApi.setStep, formApi.changeStep. simpl.
  destruct number as [[z|]|]; simpl; try reflexivity.
  destruct (z =? 0); reflexivity.
Qed.

(** X5.  From a step that is at least 1, "next" followed by "prev" brings
    the form back to the state it was in. *)
Theorem next_then_prev (st : Form) (n1 n2 : option number) :
  1 <= currentStep st ->
  bind (formApi.changeStep (VStr "next") n1)
    (fun _ => formApi.changeStep (VStr "prev") n2) st
  = Ok (tt, st).
Proof.
  intros Hstep. unfold bind, formApi.changeStep, modify. simpl.
  unfold set_currentStep. simpl.
  replace (Z.max 1 (currentStep st + 1 - 1)) with (currentStep st) by lia.
  now destruct st.
Qed.

(** X6.  Without a number, [changeStep] keeps the step at 1 or above,
    whatever its type: "next" and "prev" stay in range, "first" goes to 1,
    and every other type changes nothing. *)
Theorem changeStep_keeps_step_positive (type : val) (st st' : Form) :
  1 <= currentStep st ->
  formApi.changeStep type None st = Ok (tt, st') ->
  1 <= currentStep st'.
Proof.
  intros Hstep. unfold formApi.changeStep, modify.
  destruct (strict_equals false type (VStr "next")).
  { intros [= <-]. simpl. lia. }
  destruct (strict_equals false type (VStr "prev")).
  { intros [= <-]. simpl. lia. }
  destruct (strict_equals false type (VStr "first")).
  { intros [= <-]. simpl. lia. }
  rewrite andb_false_r. simpl.
  intros [= <-]. exact Hstep.
Qed.

(** ** Clearing the form *)

Lemma valid_unique_names (fs : list FieldInfo.t) :
  NoDup (map FieldInfo.name fs) ->
  (forall f, In f fs ->
             is_nullish (FieldState.error (FieldInfo.fieldState f)) = true) ->
  valid fs = true.
Proof.
  intros Hnd Hall.
  pose proof (own_deriveFieldProperty fs
                (fun f => FieldState.error (FieldInfo.fieldState f)))
    as Hbind.
  unfold valid, Array_some, errors.
  destruct (derived_NoDup fs
              (fun f => FieldState.error (FieldInfo.fieldState f)))
    as (o & Ho & Hkeys).
  rewrite Ho in *. simpl in Hbind.
  rewrite negb_true_iff.
  destruct (existsb _ _) eqn:Hex; [|reflexivity].
  apply existsb_exists in Hex as [e [Hin He]].
  apply Object_values_In in Hin as [name Hown]; [|assumption].
  rewrite Hbind in Hown by assumption.
  destruct (getField fs name) as [f|] eqn:Hget; [|discriminate].
  injection Hown as <-. apply getField_In in Hget as [Hin _].
  rewrite (Hall _ Hin) in He. discriminate.
Qed.

Section ClearForm.

Context {E : EnvT}.

(** The [forEach] of [clear] over stores of distinct names that the
    registry holds, when [initialValues] can be read. *)
Lemma clear_each_run (l : list FieldInfo.t) :
  forall st : Form,
    NoDup (map FieldInfo.name l) ->
    (forall x, In x l -> getField (fields st) (FieldInfo.name x) = Some x) ->
    is_nullish (Props.initialValues (props st)) = false ->
    exists st' : Form,
      formApi.clear_each l st = Ok (tt, st')
      /\ props st' = props st
      /\ currentStep st' = currentStep st
      /\ map FieldInfo.name (fields st') = map FieldInfo.name (fields st)
      /\ validatorCalls st' = validatorCalls st
      /\ (forall other : string,
             ~ In other (map FieldInfo.name l) ->
             getField (fields st') other = getField (fields st) other)
      /\ (forall x,
             In x l ->
             exists x' : FieldInfo.t,
               getField (fields st') (FieldInfo.name x) = Some x'
               /\ FieldState.value (FieldInfo.fieldState x')
                  = nullish_coalesce
                      (prop (Props.initialValues (props st))
                         (FieldInfo.name x))
                      (FieldState.defaultValue (FieldInfo.fieldState x))
               /\ FieldState.error (FieldInfo.fieldState x') = VNull
               /\ FieldState.validator (FieldInfo.fieldState x')
                  = FieldState.validator (FieldInfo.fieldState x)).
Proof.
  induction l as [|f r IH]; intros st Hnd Hheld Hobj.
  - exists st. simpl. repeat split; try reflexivity. intros x [].
  - simpl in Hnd. inversion Hnd as [|? ? Hnotin Hnd']; subst.
    pose proof (Hheld f (or_introl eq_refl)) as Hf.
    assert (Hmember : get_member (Props.initialValues (props st))
                        (FieldInfo.name f)
                      = Ok (prop (Props.initialValues (props st))
                              (FieldInfo.name f))).
    { unfold get_member. now rewrite Hobj. }
    pose proof (clearValue_run st (FieldInfo.name f) f _ Hf Hmember) as Hrun.
    match type of Hrun with _ = Ok (tt, ?y) => set (st1 := y) in * end.
    assert (Hheld1 : forall x, In x r ->
              getField (fields st1) (FieldInfo.name x) = Some x).
    { intros x Hx. unfold st1. simpl.
      rewrite getField_update_store_other.
      - apply Hheld. now right.
      - intros Heq. apply Hnotin. rewrite <- Heq. now apply in_map. }
    destruct (IH st1 Hnd' Hheld1 Hobj)
      as (st' & Hrest & Hprops & Hstep & Hnames & Hcalls & Hother & Hsel).
    exists st'. simpl. unfold bind. rewrite Hrun, Hrest.
    split; [reflexivity|].
    split; [exact Hprops|]. split; [exact Hstep|].
    split.
    { rewrite Hnames. unfold st1. simpl. apply update_store_names. }
    split; [exact Hcalls|].
    split.
    { intros other Hnot. rewrite Hother.
      - unfold st1. simpl. apply getField_update_store_other.
        intros ->. apply Hnot. now left.
      - intros Hin. apply Hnot. now right. }
    intros x [<-|Hx].
    + rewrite Hother by assumption. unfold st1. simpl.
      rewrite (getField_update_store_same _ _ _ _ Hf).
      eexists. split; [reflexivity|]. simpl. repeat split; reflexivity.
    + apply Hsel. assumption.
Qed.

(** X7.  When [initialValues] is an object and the registry holds one field
    per name, [clear()] does not throw; it gives every field the value
    [initialValues[name] ?? defaultValue] and the error [null], calls no
    validator, keeps the fields and the step, and leaves the form valid. *)
Theorem clear_resets_every_field (st : Form) :
  NoDup (map FieldInfo.name (fields st)) ->
  is_nullish (Props.initialValues (props st)) = false ->
  exists st' : Form,
    formApi.clear st = Ok (tt, st')
    /\ (forall f, In f (fields st) ->
          exists f' : FieldInfo.t,
            getField (fields st') (FieldInfo.name f) = Some f'
            /\ FieldState.value (FieldInfo.fieldState f')
               = nullish_coalesce
                   (prop (Props.initialValues (props st)) (FieldInfo.name f))
                   (FieldState.defaultValue (FieldInfo.fieldState f))
            /\ FieldState.error (FieldInfo.fieldState f') = VNull)
    /\ map FieldInfo.name (fields st') = map FieldInfo.name (fields st)
    /\ currentStep st' = currentStep st
    /\ validatorCalls st' = validatorCalls st
    /\ valid (fields st') = true.
Proof.
  intros Hnd Hobj.
  destruct (clear_each_run (fields st) st Hnd
              (fun x Hx => getField_unique _ _ Hnd Hx) Hobj)
    as (st' & Hrun & Hprops & Hstep & Hnames & Hcalls & Hother & Hsel).
  exists st'.
  split; [exact Hrun|].
  split.
  { intros f Hin. destruct (Hsel f Hin) as (f' & Hget & Hvalue & Herror & _).
    exists f'. repeat split; assumption. }
  split; [exact Hnames|]. split; [exact Hstep|]. split; [exact Hcalls|].
  assert (Hnd' : NoDup (map FieldInfo.name (fields st')))
    by now rewrite Hnames.
  apply valid_unique_names; [exact Hnd'|].
  intros g Hg.
  assert (Hname : In (FieldInfo.name g) (map FieldInfo.name (fields st))).
  { rewrite <- Hnames. now apply in_map. }
  apply in_map_iff in Hname as [f [Hfg Hf]].
  destruct (Hsel f Hf) as (f' & Hget & _ & Herror & _).
  rewrite Hfg, (getField_unique _ _ Hnd' Hg) in Hget.
  injection Hget as ->. now rewrite Herror.
Qed.

(** X8.  When [initialValues] is [null] or [undefined], [clear()] throws as
    soon as there is a field to clear, and does nothing on an empty
    registry. *)
Theorem clear_without_initialValues (st : Form) :
  is_nullish (Props.initialValues (props st)) = true ->
  (fields st = [] -> formApi.clear st = Ok (tt, st))
  /\ (fields st <> [] -> formApi.clear st = TypeError).
Proof.
  intros Hnull. unfold formApi.clear, bind, gets. split.
  - intros ->. reflexivity.
  - destruct (fields st) as [|f r] eqn:Hfs; [congruence|]. intros _.
    simpl. unfold bind.
    now rewrite (clearValue_throws st (FieldInfo.name f) Hnull).
Qed.

End ClearForm.

(** ** The other operations of the field API *)

Section FieldApiMore.

Context {E : EnvT}.

(** X9.  [updateValidation(rules)] on a registered field installs the
    validator built from the new rules and never changes the value.  When
    the error of the field is falsy, be it absent or set to a falsy value
    such as the empty string, nothing else changes: the stored error stays
    and no validator runs.  When the error is truthy, it becomes what the
    new validator answers on the current value ([undefined] when validation
    is disabled) and [lastUpdate] is refreshed.  The other fields are left
    alone. *)
Theorem updateValidation_spec (st : Form) (field : string) (f : FieldInfo.t)
  (validationRules : val) :
  getField (fields st) field = Some f ->
  let old := FieldInfo.fieldState f in
  let validator :=
    if Props.disableValidation (props st) then None
    else Some (createValidatorFromConstraints
                 (opt_prop (opt_prop (Props.schema (props st)) field)
                    "constraints")
                 validationRules field (Props.table (props st))) in
  exists (st' : Form) (f' : FieldInfo.t),
    fieldApi.updateValidation field validationRules st = Ok (tt, st')
    /\ getField (fields st') field = Some f'
    /\ FieldState.validator (FieldInfo.fieldState f') = validator
    /\ FieldState.value (FieldInfo.fieldState f') = FieldState.value old
    /\ (truthy (FieldState.error old) = false ->
        FieldState.error (FieldInfo.fieldState f') = FieldState.error old
        /\ FieldState.lastUpdate (FieldInfo.fieldState f')
           = FieldState.lastUpdate old
        /\ validatorCalls st' = validatorCalls st)
    /\ (truthy (FieldState.error old) = true ->
        FieldState.error (FieldInfo.fieldState f')
        = match validator with
          | Some v => v (FieldState.value old)
          | None => VUndefined
          end
        /\ FieldState.lastUpdate (FieldInfo.fieldState f')
           = Date_now (ticks st))
    /\ (forall other : string,
           other <> field ->
           getField (fields st') other = getField (fields st) other).
Proof.
  intros Hget old validator.
  unfold fieldApi.updateValidation, bind, get_store, gets, update, modify.
  rewrite Hget. simpl. fold old. fold validator.
  set (g1 := fun s : FieldState.t =>
               FieldState.mk (FieldState.fieldId s) (FieldState.value s)
                 (FieldState.error s) (FieldState.disabled s)
                 (FieldState.defaultValue s) validator
                 (FieldState.lastUpdate s)).
  set (st1 := set_fields (update_store field g1 (fields st)) st).
  pose proof (getField_update_store_same _ _ g1 _ Hget) as Hget1.
  destruct (truthy (FieldState.error old)) eqn:Herr.
  - match type of Hget1 with _ = Some ?x => set (f1 := x) in * end.
    assert (Hget1' : getField (fields st1) field = Some f1) by exact Hget1.
    rewrite (setValue_run st1 field f1 (FieldState.value old) true true
               Hget1' eq_refl).
    simpl. eexists. eexists. split; [reflexivity|]. simpl.
    split; [apply getField_update_store_same; exact Hget1|].
    simpl. split; [reflexivity|]. split; [reflexivity|].
    split; [discriminate|].
    split; [intros _; split; reflexivity|].
    intros other Hother.
    now rewrite !getField_update_store_other by assumption.
  - eexists. eexists. split; [reflexivity|]. simpl.
    split; [exact Hget1|].
    simpl. split; [reflexivity|]. split; [reflexivity|].
    split; [intros _; repeat split; reflexivity|].
    split; [discriminate|].
    intros other Hother.
    now rewrite getField_update_store_other by assumption.
Qed.

End FieldApiMore.

(** X10.  [setDisabled(flag)] on a registered field sets its disabled state
    to [formDisabled || flag || autocolumn]: it follows the flag unless the
    form is disabled or the schema marks the field as an auto column, in
    which case the field stays disabled whatever the flag.  Value, error
    and [lastUpdate] of the field and the other fields are left alone. *)
Theorem setDisabled_spec (st : Form) (field : string) (f : FieldInfo.t)
  (fieldDisabled : bool) :
  getField (fields st) field = Some f ->
  let locked :=
    Props.disabled (props st)
    || truthy (opt_prop (opt_prop (Props.schema (props st)) field)
                 "autocolumn") in
  exists (st' : Form) (f' : FieldInfo.t),
    fieldApi.setDisabled field fieldDisabled st = Ok (tt, st')
    /\ getField (fields st') field = Some f'
    /\ FieldState.disabled (FieldInfo.fieldState f')
       = (if locked then true else fieldDisabled)
    /\ FieldState.value (FieldInfo.fieldState f')
       = FieldState.value (FieldInfo.fieldState f)
    /\ FieldState.error (FieldInfo.fieldState f')
       = FieldState.error (FieldInfo.fieldState f)
    /\ FieldState.lastUpdate (FieldInfo.fieldState f')
       = FieldState.lastUpdate (FieldInfo.fieldState f)
    /\ validatorCalls st' = validatorCalls st
    /\ (forall other : string,
           other <> field ->
           getField (fields st') other = getField (fields st) other).
Proof.
  intros Hget locked.
  unfold fieldApi.setDisabled, bind, get_store, gets, update, modify.
  rewrite Hget. simpl.
  eexists. eexists. split; [reflexivity|]. simpl.
  split; [apply getField_update_store_same; exact Hget|].
  simpl. split.
  { unfold locked.
    destruct (Props.disabled (props st)), fieldDisabled,
      (truthy (opt_prop (opt_prop (Props.schema (props st)) field)
                 "autocolumn")); reflexivity. }
  repeat split; try reflexivity.
  intros other Hother. now apply getField_update_store_other.
Qed.

Section SetValueTwice.

Context {E : EnvT}.

(** X11.  Setting a value and then setting the same value again validates
    once: after a [setValue] that went through, a [setValue] of a value
    strictly equal to it, without [skipCheck], changes nothing and returns
    [undefined]. *)
Theorem setValue_again_is_skipped (st st1 : Form) (field : string)
  (value r : val) (skipCheck same_ref same_ref' : bool) :
  fieldApi.setValue field value skipCheck same_ref st = Ok (r, st1) ->
  r <> VUndefined ->
  strict_equals same_ref' value value = true ->
  fieldApi.setValue field value false same_ref' st1 = Ok (VUndefined, st1).
Proof.
  intros Hrun Hdone Hsame.
  destruct (getField (fields st) field) as [f|] eqn:Hget.
  - destruct (negb skipCheck
              && strict_equals same_ref
                   (FieldState.value (FieldInfo.fieldState f)) value)
      eqn:Hcond.
    + unfold fieldApi.setValue, bind, get_store in Hrun.
      rewrite Hget in Hrun. simpl in Hrun. rewrite Hcond in Hrun.
      injection Hrun as <- _. congruence.
    + rewrite (setValue_run st field f value skipCheck same_ref Hget Hcond)
        in Hrun.
      injection Hrun as _ <-.
      unfold fieldApi.setValue, bind, get_store. simpl.
      rewrite (getField_update_store_same _ _ _ _ Hget). simpl.
      now rewrite Hsame.
  - unfold fieldApi.setValue, bind, get_store in Hrun.
    rewrite Hget in Hrun. discriminate.
Qed.

End SetValueTwice.

(** ** Registration *)

Lemma filter_absent (fs : list FieldInfo.t) (name : string) :
  getField fs name = None ->
  filter (fun info => negb (FieldInfo.name info =? name)%string) fs = fs.
Proof.
  unfold getField. induction fs as [|x r IH]; simpl; [reflexivity|].
  destruct (FieldInfo.name x =? name)%string; [discriminate|].
  intros Hnone. simpl. now rewrite IH.
Qed.

Section RegistrationMore.

Context {H : HelpersT} {E : EnvT}.

(** X12.  [registerField] with a name puts the new field last and keeps
    every field of another name, in order and untouched; a field of the
    same name is dropped.  For a name that was not registered the array
    grows by one, the field gets the fresh identifier ["id-" + uuid()], the
    value [deepGet(initialValues, name) ?? defaultValue] and no error, and
    no validator runs. *)
Theorem registerField_puts_field_last (st : Form) (field : string)
  (type dv : val) (fieldDisabled : bool) (validationRules : val)
  (step : option Z) :
  field <> "" ->
  exists (f : FieldInfo.t) (st' : Form),
    formApi.registerField (Some field) type dv fieldDisabled validationRules
      step st = Ok (Some f, st')
    /\ FieldInfo.name f = field
    /\ fields st'
       = (filter (fun info => negb (FieldInfo.name info =? field)%string)
            (fields st) ++ [f])%list
    /\ uuids st' = S (uuids st)
    /\ (getField (fields st) field = None ->
        fields st' = (fields st ++ [f])%list
        /\ FieldState.fieldId (FieldInfo.fieldState f)
           = "id-" ++ uuid (uuids st)
        /\ FieldState.value (FieldInfo.fieldState f)
           = nullish_coalesce (deepGet (Props.initialValues (props st)) field)
               (default_param dv VNull)
        /\ FieldState.error (FieldInfo.fieldState f) = VNull
        /\ validatorCalls st' = validatorCalls st).
Proof.
  intros Hname.
  pose proof (registerField_run st field type dv fieldDisabled
                validationRules step Hname) as Hrun.
  simpl in Hrun.
  eexists. eexists. split; [exact Hrun|]. simpl.
  split; [reflexivity|].
  destruct (getField (fields st) field) as [e|] eqn:Hget.
  - split; [reflexivity|]. split; [reflexivity|]. discriminate.
  - split; [now rewrite (filter_absent _ _ Hget)|].
    split; [reflexivity|]. intros _.
    repeat split; try reflexivity.
    destruct (Props.disableValidation (props st)); now rewrite app_nil_r.
Qed.

(** X13.  The defaults of [registerField]: a field whose step is absent or
    0 is put on step 1 and any other step is taken as given; a default
    value that is not passed is [null]; and the field is disabled when the
    form is disabled, when the caller asks for it, or when the schema marks
    the field as an auto column. *)
Theorem registerField_defaults (st : Form) (field : string)
  (type dv : val) (fieldDisabled : bool) (validationRules : val)
  (step : option Z) :
  field <> "" ->
  exists (f : FieldInfo.t) (st' : Form),
    formApi.registerField (Some field) type dv fieldDisabled validationRules
      step st = Ok (Some f, st')
    /\ FieldInfo.type f = type
    /\ FieldInfo.step f
       = match step with
         | None | Some 0 => 1
         | Some n => n
         end
    /\ FieldState.defaultValue (FieldInfo.fieldState f)
       = match dv with
         | VUndefined => VNull
         | _ => dv
         end
    /\ (FieldState.disabled (FieldInfo.fieldState f) = true <->
        Props.disabled (props st) = true \/ fieldDisabled = true
        \/ truthy (opt_prop (opt_prop (Props.schema (props st)) field)
                     "autocolumn") = true).
Proof.
  intros Hname.
  pose proof (registerField_run st field type dv fieldDisabled
                validationRules step Hname) as Hrun.
  simpl in Hrun.
  eexists. eexists. split; [exact Hrun|]. simpl.
  split; [reflexivity|].
  split; [destruct step as [[|n|n]|]; reflexivity|].
  split; [reflexivity|].
  rewrite !orb_true_iff. tauto.
Qed.

(** X14.  When validation is disabled for the form, a field is registered
    without a validator, and a following [setValue], whatever its
    [skipCheck], accepts every value.  It never returns false: it returns
    true, unless it is skipped for a value strictly equal to the stored one
    and returns nothing.  Afterwards the field has no validator and no
    error, [undefined] after a write and what the registration left when
    the call was skipped, and holds the value, and no validator was
    called. *)
Theorem disabled_validation_accepts (st : Form) (field : string)
  (type dv : val) (fieldDisabled : bool) (validationRules : val)
  (step : option Z) (value : val) (skipCheck same_ref : bool) :
  field <> "" ->
  Props.disableValidation (props st) = true ->
  exists (f : FieldInfo.t) (st1 : Form) (r : val) (f2 : FieldInfo.t)
         (st2 : Form),
    formApi.registerField (Some field) type dv fieldDisabled validationRules
      step st = Ok (Some f, st1)
    /\ FieldState.validator (FieldInfo.fieldState f) = None
    /\ fieldApi.setValue field value skipCheck same_ref st1 = Ok (r, st2)
    /\ (if negb skipCheck
           && strict_equals same_ref
                (FieldState.value (FieldInfo.fieldState f)) value
        then r = VUndefined /\ st2 = st1 /\ f2 = f
        else r = VBool true
             /\ FieldState.value (FieldInfo.fieldState f2) = value
             /\ FieldState.error (FieldInfo.fieldState f2) = VUndefined)
    /\ r <> VBool false
    /\ getField (fields st2) field = Some f2
    /\ FieldState.validator (FieldInfo.fieldState f2) = None
    /\ is_nullish (FieldState.error (FieldInfo.fieldState f2)) = true
    /\ validatorCalls st2 = validatorCalls st.
Proof.
  intros Hname Hoff.
  pose proof (registerField_run st field type dv fieldDisabled
                validationRules step Hname) as Hrun.
  simpl in Hrun. rewrite Hoff in Hrun.
  match type of Hrun with _ = Ok (Some ?x, ?y) => set (f := x) in *;
    set (st1 := y) in * end.
  assert (Hget1 : getField (fields st1) field = Some f).
  { unfold st1. simpl.
    destruct (getField (fields st) field) eqn:Hget.
    - rewrite getField_app_last, getField_filter_same. simpl.
      now rewrite String.eqb_refl.
    - rewrite getField_app_last, Hget. simpl. now rewrite String.eqb_refl. }
  assert (Herr1 : is_nullish (FieldState.error (FieldInfo.fieldState f))
                  = true).
  { unfold f. simpl.
    destruct (getField (fields st) field) as [e|]; [|reflexivity].
    now destruct (truthy (FieldState.error (FieldInfo.fieldState e))). }
  assert (Hcalls1 : validatorCalls st1 = validatorCalls st).
  { unfold st1. simpl. apply app_nil_r. }
  destruct (negb skipCheck
            && strict_equals same_ref
                 (FieldState.value (FieldInfo.fieldState f)) value)
    eqn:Hcond.
  - exists f, st1, VUndefined, f, st1.
    split; [exact Hrun|]. split; [reflexivity|].
    split.
    { exact (setValue_skipped st1 field f value skipCheck same_ref Hget1
               Hcond). }
    split; [rewrite Hcond; repeat split; reflexivity|].
    split; [discriminate|].
    split; [exact Hget1|]. split; [reflexivity|].
    split; [exact Herr1|exact Hcalls1].
  - pose proof (setValue_run st1 field f value skipCheck same_ref Hget1
                  Hcond) as Hset.
    exists f, st1, (VBool true). eexists. eexists.
    split; [exact Hrun|]. split; [reflexivity|].
    split; [exact Hset|].
    match goal with
    | |- _ /\ _ /\ getField ?l field = Some ?x /\ _ =>
        assert (Hget2 : getField l field = Some x)
          by (simpl; apply getField_update_store_same; exact Hget1)
    end.
    split; [rewrite Hcond; repeat split; reflexivity|].
    split; [discriminate|].
    split; [exact Hget2|].
    split; [reflexivity|]. split; [reflexivity|].
    simpl. rewrite app_nil_r. exact Hcalls1.
Qed.

End RegistrationMore.

Section ValidateMore.

Context {E : EnvT}.

(** X15.  In a registry with one field per name whose fields have no
    validator, form-level [validate] returns true and calls no validator,
    and after [validate()] over all steps the form is valid. *)
Theorem validate_without_validators (st : Form) (onlyCurrentStep : bool) :
  NoDup (map FieldInfo.name (fields st)) ->
  (forall f, In f (fields st) ->
             FieldState.validator (FieldInfo.fieldState f) = None) ->
  exists st' : Form,
    formApi.validate onlyCurrentStep st = Ok (true, st')
    /\ validatorCalls st' = validatorCalls st
    /\ (onlyCurrentStep = false -> valid (fields st') = true).
Proof.
  intros Hnd Hnone.
  set (l := if onlyCurrentStep
            then filter (fun f => FieldInfo.step f =? currentStep st)
                   (fields st)
            else fields st).
  assert (Hsub : forall x, In x l -> In x (fields st)).
  { intros x. unfold l. destruct onlyCurrentStep; [|tauto].
    intros Hx. now apply filter_In in Hx. }
  assert (Hndl : NoDup (map FieldInfo.name l)).
  { unfold l. destruct onlyCurrentStep; [|exact Hnd].
    now apply filter_names_NoDup. }
  destruct (validate_each_run l st true Hndl
              (fun x Hx => getField_unique _ _ Hnd (Hsub x Hx)))
    as (st' & Hrun & _ & _ & Hnames & _ & Hsel & Hcalls).
  assert (Hundef : forall x, In x l -> run_validator x = VUndefined).
  { intros x Hx. unfold run_validator. now rewrite (Hnone x (Hsub x Hx)). }
  exists st'. split.
  { unfold formApi.validate, bind, gets. simpl. fold l. rewrite Hrun.
    f_equal. f_equal. apply forallb_forall. intros x Hx.
    now rewrite (Hundef x Hx). }
  split.
  { rewrite Hcalls.
    assert (Hflat : flat_map validator_call l = []).
    { clear - Hsub Hnone. induction l as [|x r IH]; simpl; [reflexivity|].
      unfold validator_call at 1.
      rewrite (Hnone x (Hsub x (or_introl eq_refl))). simpl.
      apply IH. intros y Hy. apply Hsub. now right. }
    rewrite Hflat. apply app_nil_r. }
  intros Hall. unfold l in *. rewrite Hall in *.
  assert (Hnd' : NoDup (map FieldInfo.name (fields st')))
    by now rewrite Hnames.
  apply valid_unique_names; [exact Hnd'|].
  intros g Hg.
  assert (Hname : In (FieldInfo.name g) (map FieldInfo.name (fields st))).
  { rewrite <- Hnames. now apply in_map. }
  apply in_map_iff in Hname as [f [Hfg Hf]].
  destruct (Hsel f Hf) as (f' & Hget & _ & Herror & _).
  rewrite Hfg, (getField_unique _ _ Hnd' Hg) in Hget.
  injection Hget as ->. rewrite Herror, (Hundef f Hf). reflexivity.
Qed.

End ValidateMore.

(** ** The form value and the data context *)


Lemma own_fold_obj_set (l : obj) (k : string) :
  forall acc : obj,
    NoDup (map fst l) ->
    own (fold_left (fun o e => obj_set o (fst e) (snd e)) l acc) k
    = match own l k with
      | Some v => Some v
      | None => own acc k
      end.
Proof.
  induction l as [|[k' v'] r IH]; simpl; intros acc Hnd; [reflexivity|].
  inversion Hnd as [|? ? Hnotin Hnd']; subst.
  rewrite IH by assumption.
  destruct (k' =? k)%string eqn:Hk.
  - apply String.eqb_eq in Hk. subst k'.
    destruct (own r k) as [v|] eqn:Hown.
    + exfalso. apply Hnotin. apply own_In in Hown.
      change k with (fst (k, v)). now apply in_map.
    + apply own_obj_set_same.
  - destruct (own r k); [reflexivity|].
    apply own_obj_set_other. now apply String.eqb_neq.
Qed.

(** Spreading an object keeps what each of its keys is bound to. *)
Lemma own_spread (o : obj) (k : string) :
  NoDup (map fst o) -> own (spread (VObj o)) k = own o k.
Proof.
  intros Hnd. unfold spread. simpl.
  assert (Hnd' : NoDup (map fst (own_entries o))).
  { eapply Permutation_NoDup; [|exact Hnd].
    apply Permutation_map, Permutation_sym, own_entries_perm. }
  rewrite own_fold_obj_set by assumption. simpl.
  destruct (own (own_entries o) k) as [v|] eqn:Hown.
  - apply own_In in Hown.
    apply (Permutation_in _ (own_entries_perm o)) in Hown.
    symmetry. now apply In_own.
  - destruct (own o k) as [v|] eqn:Hown'; [|reflexivity].
    apply own_In in Hown'.
    apply (Permutation_in _ (Permutation_sym (own_entries_perm o))) in Hown'.
    apply (In_own _ _ _ Hnd') in Hown'. congruence.
Qed.

Section FormValueMore.

Context {H : HelpersT}.


(** X17.  Whenever the data context is computed, the form value was
    computed without a throw, and the four static keys of the context hold
    the form value, the validity, the current step and the validity of the
    current step, also when the form value has properties of these names;
    each other key holds what the form value has. *)
Theorem dataContext_static_keys (st : Form) (provided : val) :
  dataContext st = Ok provided ->
  exists (formValue' : val) (context : obj),
    formValue st = Ok formValue'
    /\ provided = VObj context
    /\ own context "__value" = Some formValue'
    /\ own context "__valid" = Some (VBool (valid (fields st)))
    /\ own context "__currentStep" = Some (VNum (Int (currentStep st)))
    /\ own context "__currentStepValid"
       = Some (VBool (currentStepValid st))
    /\ (forall k : string,
           k <> "__value" -> k <> "__valid" -> k <> "__currentStep" ->
           k <> "__currentStepValid" ->
           own context k = own (spread formValue') k)
    /\ (forall (o : obj) (k : string),
           formValue' = VObj o -> NoDup (map fst o) ->
           k <> "__value" -> k <> "__valid" -> k <> "__currentStep" ->
           k <> "__currentStepValid" ->
           own context k = own o k).
Proof.
  unfold dataContext.
  destruct (formValue st) as [fv|]; [|discriminate].
  intros [= <-].
  eexists. eexists. split; [reflexivity|]. split; [reflexivity|].
  assert (Hother : forall k,
    k <> "__value" -> k <> "__valid" -> k <> "__currentStep" ->
    k <> "__currentStepValid" ->
    own (obj_set
           (obj_set
              (obj_set (obj_set (spread fv) "__value" fv) "__valid"
                 (VBool (valid (fields st))))
              "__currentStep" (VNum (Int (currentStep st))))
           "__currentStepValid" (VBool (currentStepValid st))) k
    = own (spread fv) k).
  { intros k H1 H2 H3 H4.
    rewrite !own_obj_set_other by congruence. reflexivity. }
  split.
  { rewrite !own_obj_set_other by discriminate. apply own_obj_set_same. }
  split.
  { rewrite !own_obj_set_other by discriminate. apply own_obj_set_same. }
  split.
  { rewrite !own_obj_set_other by discriminate. apply own_obj_set_same. }
  split; [apply own_obj_set_same|].
  split; [apply Hother|].
  intros o k Ho Hnd H1 H2 H3 H4.
  rewrite Hother by assumption. rewrite Ho. now apply own_spread.
Qed.

End FormValueMore.

(** ** The modal dialog content *)

Lemma not_false_iff (v : val) :
  strict_equals false v (VBool false) = true <-> v = VBool false.
Proof.
  split.
  - destruct v as [| |[|]|[z|]|s|l|o]; simpl; try discriminate. reflexivity.
  - intros ->. reflexivity.
Qed.

(** X18.  A handler of the dialog that runs on its own dismisses the dialog
    once, [confirm] and [secondary] through [hide] and [close] through
    [cancel], unless its callback resolves to the boolean [false] or
    throws: an absent callback and a callback that resolves to anything
    else, be it [undefined], 0 or the empty string, let the dialog go. *)
Theorem dialog_stays_only_on_false (callback : option ModalContent.outcome)
  (m : ModalContent.t) :
  let stays :=
    match callback with
    | Some (ModalContent.Resolved (VBool false)) => true
    | Some ModalContent.Rejected => true
    | _ => false
    end in
  let count (n : nat) := if stays then n else S n in
  ModalContent.hides (fst (ModalContent.confirm callback m))
  = count (ModalContent.hides m)
  /\ ModalContent.cancels (fst (ModalContent.confirm callback m))
     = ModalContent.cancels m
  /\ ModalContent.hides (fst (ModalContent.secondary callback m))
     = count (ModalContent.hides m)
  /\ ModalContent.cancels (fst (ModalContent.secondary callback m))
     = ModalContent.cancels m
  /\ ModalContent.cancels (fst (ModalContent.close callback m))
     = count (ModalContent.cancels m)
  /\ ModalContent.hides (fst (ModalContent.close callback m))
     = ModalContent.hides m.
Proof.
  unfold ModalContent.confirm, ModalContent.secondary, ModalContent.close,
    ModalContent.handler.
  destruct callback as [[v|]|]; simpl.
  - destruct (strict_equals false v (VBool false)) eqn:Hv.
    + apply not_false_iff in Hv. subst v. simpl. repeat split; reflexivity.
    + assert (Hstays : match v with VBool false => true | _ => false end
                       = false).
      { destruct v as [| |[|]|n|s|l|o]; try reflexivity. discriminate. }
      simpl.
      destruct v as [| |[|]|n|s|l|o]; try discriminate;
        simpl; repeat split; reflexivity.
  - repeat split; reflexivity.
  - repeat split; reflexivity.
Qed.

(** X19.  Each of [confirm], [secondary] and [close], the handler body with
    [hide] or [cancel] to dismiss, runs to its end unless its callback
    throws.  A handler that runs to its end leaves [loading] false, so the
    confirm button is disabled exactly when the dialog is; a handler whose
    callback throws stops with [loading] still true, which keeps the
    confirm button disabled, and has dismissed nothing. *)
Theorem dialog_loading_after_handler
  (callback : option ModalContent.outcome)
  (dismiss : ModalContent.t -> ModalContent.t)
  (m : ModalContent.t) (disabled : bool) :
  let m' := fst (ModalContent.handler callback dismiss m) in
  let finished := snd (ModalContent.handler callback dismiss m) in
  (finished = true <-> callback <> Some ModalContent.Rejected)
  /\ (finished = true ->
      ModalContent.loading m' = false
      /\ ModalContent.confirmDisabled disabled m' = disabled)
  /\ (finished = false ->
      ModalContent.loading m' = true
      /\ ModalContent.confirmDisabled disabled m' = true
      /\ ModalContent.hides m' = ModalContent.hides m
      /\ ModalContent.cancels m' = ModalContent.cancels m).
Proof.
  unfold ModalContent.handler, ModalContent.confirmDisabled.
  destruct callback as [[v|]|]; simpl.
  - destruct (negb (strict_equals false v (VBool false))); simpl.
    + split; [split; [discriminate|reflexivity]|].
      split; [intros _; split; [reflexivity|apply orb_false_r]|discriminate].
    + split; [split; [discriminate|reflexivity]|].
      split; [intros _; split; [reflexivity|apply orb_false_r]|discriminate].
  - split; [split; [discriminate|congruence]|].
    split; [discriminate|].
    intros _. repeat split; try reflexivity. apply orb_true_r.
  - split; [split; [discriminate|reflexivity]|].
    split; [intros _; split; [reflexivity|apply orb_false_r]|discriminate].
Qed.

(** ** The data providers of the "Save Row" action settings *)

Lemma map_result_Forall2 {A C : Type} (f : A -> result C) (l : list A)
  (ys : list C) :
  SaveRow.map_result f l = Ok ys <-> Forall2 (fun x y => f x = Ok y) l ys.
Proof.
  revert ys. induction l as [|x r IH]; intros ys; simpl.
  - split.
    + intros [= <-]. constructor.
    + intros Hall. inversion Hall. reflexivity.
  - split.
    + destruct (f x) as [y|] eqn:Hx; [|discriminate].
      destruct (SaveRow.map_result f r) as [ys'|] eqn:Hr; [|discriminate].
      intros [= <-]. constructor; [assumption|]. now apply IH.
    + intros Hall. inversion Hall as [|? y ? ys' Hx Hrest]; subst.
      rewrite Hx. apply IH in Hrest. now rewrite Hrest.
Qed.

Lemma map_result_throws_iff {A C : Type} (f : A -> result C) (l : list A) :
  SaveRow.map_result f l = TypeError <->
  exists x : A, In x l /\ f x = TypeError.
Proof.
  induction l as [|x r IH]; simpl.
  - split; [discriminate|]. intros [x [[] _]].
  - destruct (f x) as [y|] eqn:Hx.
    + destruct (SaveRow.map_result f r) as [ys|] eqn:Hr.
      * split; [discriminate|].
        intros [x' [[<-|Hin] Hthrow]]; [congruence|].
        assert (Habs : Ok ys = @TypeError (list C)).
        { apply IH. exists x'. now split. }
        discriminate.
      * split; [|reflexivity]. intros _.
        destruct (proj1 IH eq_refl) as [x' [Hin Hthrow]].
        exists x'. split; [now right|assumption].
    + split; [|reflexivity]. intros _. exists x. split; [now left|assumption].
Qed.

Section SaveRowFacts.

Context {B : BuilderT}.

(** X20.  What [extractComponentContext] returns, when it is neither
    [null] nor [undefined], is a context of the requested type that the
    definition of the component declares, as its single context or as one
    of an array of contexts. *)
Theorem extractComponentContext_sound (component contextType : val) :
  let found := SaveRow.extractComponentContext component contextType in
  let def := getDefinition (opt_prop component "_component") in
  is_nullish found = false ->
  truthy def = true
  /\ strict_equals false (prop found "type") contextType = true
  /\ (prop def "context" = found
      \/ exists l : list val, prop def "context" = VArr l /\ In found l).
Proof.
  simpl. unfold SaveRow.extractComponentContext, SaveRow.Array_find.
  destruct (truthy (getDefinition (opt_prop component "_component")));
    simpl; [|discriminate].
  intros Hfound. split; [reflexivity|].
  match type of Hfound with
  | is_nullish (match find ?p ?l with _ => _ end) = _ =>
      destruct (find p l) as [c|] eqn:Hfind; [|discriminate]
  end.
  apply find_some in Hfind as [Hin Htype].
  unfold opt_prop in Htype. rewrite Hfound in Htype.
  split; [exact Htype|].
  destruct (prop (getDefinition (opt_prop component "_component")) "context")
    as [| |b|n|s|l|o] eqn:Hctx;
    try (left; destruct Hin as [<-|[]]; reflexivity).
  right. exists l. split; [reflexivity|assumption].
Qed.

(** X21.  [getProviderOptions] throws exactly when one of the form
    components is [null] or [undefined] or has no context of type "form",
    or one of the schema components is so for the type "schema": it reads
    the suffix of a context that is not there. *)
Theorem getProviderOptions_throws_iff (formComponents schemaComponents
  : list val) :
  SaveRow.getProviderOptions formComponents schemaComponents = TypeError <->
  (exists c : val,
      In c formComponents
      /\ (is_nullish c = true
          \/ is_nullish (SaveRow.extractComponentContext c (VStr "form"))
             = true))
  \/ (exists c : val,
         In c schemaComponents
         /\ (is_nullish c = true
             \/ is_nullish (SaveRow.extractComponentContext c (VStr "schema"))
                = true)).
Proof.
  assert (Hone : forall c ctx,
            SaveRow.providerOption c ctx = TypeError <->
            is_nullish c = true \/ is_nullish ctx = true).
  { intros c ctx. unfold SaveRow.providerOption, get_member.
    destruct (is_nullish c), (is_nullish ctx); simpl;
      split; intros Hx; try discriminate; try reflexivity;
      try (now left); try (now right).
    destruct Hx; discriminate. }
  unfold SaveRow.getProviderOptions.
  rewrite map_result_throws_iff. split.
  - intros [[c ctx] [Hin Hthrow]]. simpl in Hthrow.
    apply Hone in Hthrow.
    apply in_app_or in Hin as [Hin|Hin];
      apply in_map_iff in Hin as [c' [[= <- <-] Hin]].
    + left. exists c'. now split.
    + right. exists c'. now split.
  - intros [[c [Hin Hbad]]|[c [Hin Hbad]]].
    + exists (c, SaveRow.extractComponentContext c (VStr "form")).
      split; [|now apply Hone].
      apply in_or_app. left.
      apply (in_map (fun component =>
                       (component,
                        SaveRow.extractComponentContext component
                          (VStr "form")))). exact Hin.
    + exists (c, SaveRow.extractComponentContext c (VStr "schema")).
      split; [|now apply Hone].
      apply in_or_app. right.
      apply (in_map (fun component =>
                       (component,
                        SaveRow.extractComponentContext component
                          (VStr "schema")))). exact Hin.
Qed.

(** X22.  When [getProviderOptions] returns, it returns one option per
    component, those of the form components first and those of the schema
    components after them, each list in the order of its components. *)
Theorem getProviderOptions_order (formComponents schemaComponents
  : list val) (options : list val) :
  SaveRow.getProviderOptions formComponents schemaComponents = Ok options ->
  exists formOptions schemaOptions : list val,
    options = (formOptions ++ schemaOptions)%list
    /\ Forall2
         (fun c o =>
            SaveRow.providerOption c
              (SaveRow.extractComponentContext c (VStr "form")) = Ok o)
         formComponents formOptions
    /\ Forall2
         (fun c o =>
            SaveRow.providerOption c
              (SaveRow.extractComponentContext c (VStr "schema")) = Ok o)
         schemaComponents schemaOptions
    /\ List.length options
       = (List.length formComponents + List.length schemaComponents)%nat.
Proof.
  unfold SaveRow.getProviderOptions. intros Hrun.
  apply map_result_Forall2 in Hrun.
  apply Forall2_app_inv_l in Hrun as (fo & so & Hfo & Hso & ->).
  exists fo, so. split; [reflexivity|].
  assert (Hmap : forall (type : val) (cs os : list val),
            Forall2
              (fun (cc : val * val) o =>
                 SaveRow.providerOption (fst cc) (snd cc) = Ok o)
              (map (fun component =>
                      (component,
                       SaveRow.extractComponentContext component type)) cs)
              os ->
            Forall2
              (fun c o =>
                 SaveRow.providerOption c
                   (SaveRow.extractComponentContext c type) = Ok o) cs os).
  { intros type cs. induction cs as [|c r IH]; intros os Hall;
      inversion Hall; subst; constructor; auto. }
  apply Hmap in Hfo. apply Hmap in Hso.
  split; [exact Hfo|]. split; [exact Hso|].
  rewrite List.length_app.
  now rewrite (Forall2_length Hfo), (Forall2_length Hso).
Qed.

(** X23.  The option of a component whose identifier is a string: its label
    is the instance name of the component, and its value is the identifier
    when the context has no suffix or a falsy one, and the identifier, a
    dash and the suffix when the context has a suffix that is a string
    other than the empty one. *)
Theorem providerOption_value (component context : val) (id : string) :
  is_nullish component = false ->
  is_nullish context = false ->
  prop component "_id" = VStr id ->
  (truthy (prop context "suffix") = false ->
   SaveRow.providerOption component context
   = Ok (VObj [("label", prop component "_instanceName");
               ("value", VStr id)]))
  /\ (forall suffix : string,
         prop context "suffix" = VStr suffix -> suffix <> "" ->
         SaveRow.providerOption component context
         = Ok (VObj [("label", prop component "_instanceName");
                     ("value", VStr (id ++ "-" ++ suffix))])).
Proof.
  intros Hc Hctx Hid. unfold SaveRow.providerOption, get_member.
  rewrite Hc, Hctx, Hid. split.
  - intros ->. reflexivity.
  - intros suffix -> Hsuffix. simpl.
    apply String.eqb_neq in Hsuffix. rewrite Hsuffix. simpl.
    now rewrite !ToString_string.
Qed.

End SaveRowFacts.

(** ** Field identifiers *)

Lemma update_store_ids (fs : list FieldInfo.t) (name : string)
  (g : FieldState.t -> FieldState.t) :
  (forall s, FieldState.fieldId (g s) = FieldState.fieldId s) ->
  map fieldId_of (update_store name g fs) = map fieldId_of fs.
Proof.
  intros Hg. induction fs as [|x r IH]; simpl; [reflexivity|].
  destruct (FieldInfo.name x =? name)%string; simpl.
  - unfold fieldId_of at 1. simpl. now rewrite Hg.
  - now rewrite IH.
Qed.

Lemma NoDup_map_filter {A C : Type} (g : A -> C) (p : A -> bool)
  (l : list A) :
  NoDup (map g l) -> NoDup (map g (filter p l)).
Proof.
  induction l as [|x r IH]; simpl; intros Hnd; [constructor|].
  inversion Hnd as [|? ? Hnotin Hnd']; subst.
  destruct (p x); simpl; [|now apply IH].
  constructor; [|now apply IH].
  intros Hin. apply Hnotin.
  apply in_map_iff in Hin as [y [Hy Hin]].
  apply filter_In in Hin as [Hin _].
  rewrite <- Hy. now apply in_map.
Qed.

Lemma NoDup_map_inj {A C : Type} (g : A -> C) (l : list A) (x y : A) :
  NoDup (map g l) -> In x l -> In y l -> g x = g y -> x = y.
Proof.
  induction l as [|z r IH]; simpl; intros Hnd Hx Hy Heq; [contradiction|].
  inversion Hnd as [|? ? Hnotin Hnd']; subst.
  destruct Hx as [->|Hx], Hy as [->|Hy]; auto.
  - exfalso. apply Hnotin. rewrite Heq. now apply in_map.
  - exfalso. apply Hnotin. rewrite <- Heq. now apply in_map.
Qed.

Section Identifiers.

Context {H : HelpersT} {E : EnvT}.

Lemma keeps_ids_ret {A : Type} (a : A) : keeps_ids (ret a).
Proof. intros st a' st' [= _ <-]. split; reflexivity. Qed.

Lemma keeps_ids_throw {A : Type} : keeps_ids (@throw A).
Proof. intros st a st' Hrun. discriminate. Qed.

Lemma keeps_ids_bind {A C : Type} (c : M A) (k : A -> M C) :
  keeps_ids c -> (forall a, keeps_ids (k a)) -> keeps_ids (bind c k).
Proof.
  intros Hc Hk st b st' Hrun. unfold bind in Hrun.
  destruct (c st) as [[a st1]|] eqn:Hcst; [|discriminate].
  destruct (Hk a _ _ _ Hrun) as [Hids Hn].
  destruct (Hc _ _ _ Hcst) as [Hids1 Hn1].
  split; congruence.
Qed.

Lemma keeps_ids_gets {A : Type} (f : Form -> A) : keeps_ids (gets f).
Proof. intros st a st' [= _ <-]. split; reflexivity. Qed.

Lemma keeps_ids_get_store (name : string) : keeps_ids (get_store name).
Proof.
  intros st a st'. unfold get_store.
  destruct (getField (fields st) name); [|discriminate].
  intros [= _ <-]. split; reflexivity.
Qed.

Lemma keeps_ids_now : keeps_ids now.
Proof. intros st a st' [= _ <-]. split; reflexivity. Qed.

Lemma keeps_ids_call_validator (field : string)
  (validator : option (val -> val)) (value : val) :
  keeps_ids (call_validator field validator value).
Proof.
  destruct validator; simpl; [|apply keeps_ids_ret].
  intros st a st' [= _ <-]. split; reflexivity.
Qed.

Lemma keeps_ids_update (name : string) (g : FieldState.t -> FieldState.t) :
  (forall s, FieldState.fieldId (g s) = FieldState.fieldId s) ->
  keeps_ids (update name g).
Proof.
  intros Hg st a st' [= _ <-]. simpl.
  split; [now apply update_store_ids|reflexivity].
Qed.

Lemma keeps_ids_modify_step (f : Form -> Z) :
  keeps_ids (modify (fun st => set_currentStep (f st) st)).
Proof. intros st a st' [= _ <-]. split; reflexivity. Qed.

Ltac keeps_id :=
  repeat (cbv beta zeta;
          match goal with
          | |- keeps_ids (ret _) => apply keeps_ids_ret
          | |- keeps_ids throw => apply keeps_ids_throw
          | |- keeps_ids (gets _) => apply keeps_ids_gets
          | |- keeps_ids (get_store _) => apply keeps_ids_get_store
          | |- keeps_ids now => apply keeps_ids_now
          | |- keeps_ids (call_validator _ _ _) =>
              apply keeps_ids_call_validator
          | |- keeps_ids (update _ _) =>
              apply keeps_ids_update; intro; reflexivity
          | |- keeps_ids (bind _ _) => apply keeps_ids_bind; [|intro]
          | |- keeps_ids (if ?c then _ else _) => destruct c
          | |- keeps_ids (match ?r with Ok _ => _ | TypeError => _ end) =>
              destruct r
          end).

Lemma keeps_ids_setValue (field : string) (value : val)
  (skipCheck same_ref : bool) :
  keeps_ids (fieldApi.setValue field value skipCheck same_ref).
Proof. unfold fieldApi.setValue. keeps_id. Qed.

Lemma keeps_ids_clearValue (field : string) :
  keeps_ids (fieldApi.clearValue field).
Proof. unfold fieldApi.clearValue. keeps_id. Qed.

Lemma keeps_ids_updateValidation (field : string) (rules : val) :
  keeps_ids (fieldApi.updateValidation field rules).
Proof.
  unfold fieldApi.updateValidation. keeps_id. apply keeps_ids_setValue.
Qed.

Lemma keeps_ids_setDisabled (field : string) (fieldDisabled : bool) :
  keeps_ids (fieldApi.setDisabled field fieldDisabled).
Proof. unfold fieldApi.setDisabled. keeps_id. Qed.

Lemma keeps_ids_field_validate (field : string) :
  keeps_ids (fieldApi.validate field).
Proof. unfold fieldApi.validate. keeps_id. apply keeps_ids_setValue. Qed.

Lemma keeps_ids_validate (onlyCurrentStep : bool) :
  keeps_ids (formApi.validate onlyCurrentStep).
Proof.
  unfold formApi.validate. keeps_id.
  match goal with |- keeps_ids (formApi.validate_each ?l _) =>
    generalize l end.
  intros l. generalize true.
  induction l as [|f r IH]; intros valid; simpl; keeps_id.
  - apply keeps_ids_field_validate.
  - apply IH.
Qed.

Lemma keeps_ids_clear : keeps_ids formApi.clear.
Proof.
  unfold formApi.clear. keeps_id.
  match goal with |- keeps_ids (formApi.clear_each ?l) => generalize l end.
  intros l. induction l as [|f r IH]; simpl; keeps_id.
  - apply keeps_ids_clearValue.
  - apply IH.
Qed.

Lemma keeps_ids_changeStep (type : val) (number : option number) :
  keeps_ids (formApi.changeStep type number).
Proof.
  unfold formApi.changeStep.
  keeps_id;
    repeat match goal with
           | |- keeps_ids (match ?n with _ => _ end) => destruct n
           end;
    keeps_id;
    try apply (keeps_ids_modify_step (fun st => currentStep st + 1));
    try apply (keeps_ids_modify_step
                 (fun st => Z.max 1 (currentStep st - 1)));
    try (intros st a st' [= _ <-]; split; reflexivity).
Qed.

Lemma keeps_ids_setStep (step : option number) :
  keeps_ids (formApi.setStep step).
Proof.
  unfold formApi.setStep.
  keeps_id;
    repeat match goal with
           | |- keeps_ids (match ?n with _ => _ end) => destruct n
           end;
    keeps_id; intros st a st' [= _ <-]; split; reflexivity.
Qed.

Lemma keeps_ids_drawn {A : Type} (c : M A) (st : Form) (a : A) (st' : Form) :
  keeps_ids c -> c st = Ok (a, st') -> ids_drawn st -> ids_drawn st'.
Proof.
  intros Hc Hrun [Hnd Hdrawn]. destruct (Hc _ _ _ Hrun) as [Hids Hn].
  split; [now rewrite Hids|].
  intros f Hf. rewrite Hn.
  assert (Hin : In (fieldId_of f) (map fieldId_of (fields st))).
  { rewrite <- Hids. now apply in_map. }
  apply in_map_iff in Hin as [g [Hg Hgin]].
  destruct (Hdrawn g Hgin) as [k [Hk Hid]].
  exists k. split; [assumption|congruence].
Qed.

Lemma registerField_ids_drawn (st : Form) (field : option string)
  (type dv : val) (fieldDisabled : bool) (rules : val) (step : option Z)
  (r : option FieldInfo.t) (st' : Form) :
  (forall i j : nat, uuid i = uuid j -> i = j) ->
  formApi.registerField field type dv fieldDisabled rules step st
  = Ok (r, st') ->
  ids_drawn st -> ids_drawn st'.
Proof.
  intros Hinj Hrun [Hnd Hdrawn].
  destruct field as [field|]; [|injection Hrun as _ <-; now split].
  destruct (string_dec field "") as [->|Hname];
    [injection Hrun as _ <-; now split|].
  rewrite (registerField_run st field type dv fieldDisabled rules step Hname)
    in Hrun.
  injection Hrun as _ <-. unfold ids_drawn. simpl.
  set (kept := filter (fun info => negb (FieldInfo.name info =? field)%string)
                 (fields st)).
  assert (Hkept : forall x, In x kept ->
            In x (fields st) /\ FieldInfo.name x <> field).
  { intros x Hx. apply filter_In in Hx as [Hx Hne]. split; [assumption|].
    apply negb_true_iff, String.eqb_neq in Hne. exact Hne. }
  assert (Hlater : forall f, In f (fields st) ->
            exists k, (k < S (uuids st))%nat
                      /\ fieldId_of f = "id-" ++ uuid k).
  { intros f Hf. destruct (Hdrawn f Hf) as [k [Hk Hid]].
    exists k. split; [lia|assumption]. }
  destruct (getField (fields st) field) as [e|] eqn:Hget.
  - apply getField_In in Hget as [He Hename]. fold kept. split.
    + rewrite map_app. simpl. apply NoDup_app.
      * now apply NoDup_map_filter.
      * repeat constructor. intros [].
      * intros a Ha [Hnew|[]].
        apply in_map_iff in Ha as [x [Hx Hxin]].
        destruct (Hkept x Hxin) as [Hxfs Hxname].
        apply Hxname. rewrite <- Hename. f_equal.
        apply (NoDup_map_inj fieldId_of (fields st)); try assumption.
        rewrite Hx, <- Hnew. reflexivity.
    + intros f Hf. apply in_app_or in Hf as [Hf|[<-|[]]].
      * apply Hlater. now apply Hkept.
      * apply (Hlater e He).
  - split.
    + rewrite map_app. simpl. apply NoDup_app.
      * assumption.
      * repeat constructor. intros [].
      * intros a Ha [Hnew|[]].
        apply in_map_iff in Ha as [x [Hx Hxin]].
        destruct (Hdrawn x Hxin) as [k [Hk Hid]].
        unfold fieldId_of at 1 in Hnew. simpl in Hnew.
        rewrite Hx, <- Hnew in Hid. injection Hid as Hid.
        apply Hinj in Hid. lia.
    + intros f Hf. apply in_app_or in Hf as [Hf|[<-|[]]].
      * now apply Hlater.
      * exists (uuids st). split; [lia|reflexivity].
Qed.

(** X24.  When [Helpers.uuid] never hands out the same identifier twice,
    the registry of every reachable state holds no two fields with the same
    [fieldId]: a new name gets a fresh identifier, a name registered again
    keeps the one it had, and no other operation touches identifiers. *)
Theorem fieldIds_unique (p : Props.t) (st : Form) :
  (forall i j : nat, uuid i = uuid j -> i = j) ->
  reachable p st ->
  NoDup (map fieldId_of (fields st)).
Proof.
  intros Hinj Hreach.
  assert (Hinv : ids_drawn st).
  { induction Hreach as [|st st' a Hreach IH Hrun].
    - split; [constructor|intros f []].
    - assert (Hkeep : forall c : M unit, keeps_ids c ->
                c st = Ok (tt, st') -> ids_drawn st').
      { intros c Hc Hcrun. exact (keeps_ids_drawn c st tt st' Hc Hcrun IH). }
      destruct a; simpl in Hrun.
      + unfold bind in Hrun.
        destruct (formApi.registerField _ _ _ _ _ _ st) as [[r st1]|]
          eqn:Hreg; [|discriminate].
        injection Hrun as <-.
        eapply registerField_ids_drawn; eassumption.
      + eapply Hkeep; [|exact Hrun]. keeps_id. apply keeps_ids_validate.
      + eapply Hkeep; [|exact Hrun]. apply keeps_ids_clear.
      + eapply Hkeep; [|exact Hrun]. apply keeps_ids_changeStep.
      + eapply Hkeep; [|exact Hrun]. apply keeps_ids_setStep.
      + eapply Hkeep; [|exact Hrun]. keeps_id. apply keeps_ids_setValue.
      + eapply Hkeep; [|exact Hrun]. apply keeps_ids_clearValue.
      + eapply Hkeep; [|exact Hrun]. apply keeps_ids_updateValidation.
      + eapply Hkeep; [|exact Hrun]. apply keeps_ids_setDisabled.
      + eapply Hkeep; [|exact Hrun]. keeps_id. apply keeps_ids_field_validate.
      + injection Hrun as <-. exact IH. }
  exact (proj1 Hinv).
Qed.

End Identifiers.

(** ** Values after writes *)

Section ValuesAfterWrites.

Context {E : EnvT}.

(** Strict equality with a primitive value is equality. *)
Lemma strict_equals_primitive (same_ref : bool) (a b : val) :
  is_primitive b = true -> strict_equals same_ref a b = true -> a = b.
Proof.
  destruct a as [| |x|[x|]|x|x|x], b as [| |y|[y|]|y|y|y]; simpl;
    try discriminate; try reflexivity; intros _ Heq.
  - apply Bool.eqb_prop in Heq. now subst.
  - apply Z.eqb_eq in Heq. now subst.
  - apply String.eqb_eq in Heq. now subst.
Qed.

(** X25.  In a registry with one field per name, after a [setValue] of a
    primitive value that returned, [values] binds the name of the field to
    that value, also when the call was skipped for a stored value strictly
    equal to it; and every other name that [values] bound to a primitive
    value is bound to it still.  Values that are objects are left aside:
    what holds an object can see it change. *)
Theorem values_follow_setValue (st st' : Form) (field : string)
  (value r : val) (skipCheck same_ref : bool) :
  NoDup (map FieldInfo.name (fields st)) ->
  is_primitive value = true ->
  fieldApi.setValue field value skipCheck same_ref st = Ok (r, st') ->
  own_property (values (fields st')) field = Some value
  /\ (forall (other : string) (held : val),
         other <> field ->
         is_primitive held = true ->
         own_property (values (fields st)) other = Some held ->
         own_property (values (fields st')) other = Some held).
Proof.
  intros Hnd Hprim Hrun.
  assert (Hnd' : NoDup (map FieldInfo.name (fields st')))
    by now rewrite (keeps_names_setValue _ _ _ _ _ _ _ Hrun).
  unfold values. setoid_rewrite own_deriveFieldProperty; try assumption.
  destruct (getField (fields st) field) as [f|] eqn:Hget.
  - destruct (negb skipCheck
              && strict_equals same_ref
                   (FieldState.value (FieldInfo.fieldState f)) value)
      eqn:Hcond.
    + rewrite (setValue_skipped st field f value skipCheck same_ref Hget
                 Hcond) in Hrun.
      injection Hrun as _ <-. split; [|intros other held _ _ Hheld; exact Hheld].
      rewrite Hget. simpl. f_equal.
      apply andb_true_iff in Hcond as [_ Heq].
      now apply (strict_equals_primitive same_ref).
    + rewrite (setValue_run st field f value skipCheck same_ref Hget Hcond)
        in Hrun.
      injection Hrun as _ <-. simpl. split.
      * now rewrite (getField_update_store_same _ _ _ _ Hget).
      * intros other held Hother _ Hheld.
        now rewrite getField_update_store_other.
  - unfold fieldApi.setValue, bind, get_store in Hrun.
    rewrite Hget in Hrun. discriminate.
Qed.

End ValuesAfterWrites.

(** An instance at [required_form]: "x" is written to the field "a". *)
Lemma values_follow_setValue_witness :
  NoDup (map FieldInfo.name (fields required_form))
  /\ is_primitive (VStr "x") = true
  /\ fieldApi.setValue (E := sampleEnv) "a" (VStr "x") false false
       required_form = Ok (VBool true, edited_form)
  /\ own_property (values (fields edited_form)) "a" = Some (VStr "x").
Proof.
  assert (Hnd : NoDup (map FieldInfo.name (fields required_form)))
    by distinct_names.
  assert (Hrun : fieldApi.setValue (E := sampleEnv) "a" (VStr "x") false
                   false required_form = Ok (VBool true, edited_form))
    by (vm_compute; reflexivity).
  split; [exact Hnd|]. split; [reflexivity|]. split; [exact Hrun|].
  exact (proj1 (values_follow_setValue (E := sampleEnv) required_form
                  edited_form "a" (VStr "x") (VBool true) false false Hnd
                  eq_refl Hrun)).
Defined.

(** ** The further properties at sample forms *)

Lemma required_form_reachable :
  reachable (H := specHelpers) (E := sampleEnv) (sampleProps (VObj []))
    required_form.
Proof.
  apply (run_all_reachable (sampleProps (VObj [])) required_calls
           (initialForm (sampleProps (VObj [])))); [apply reachable_init|].
  vm_compute. reflexivity.
Qed.

Lemma attachments_form_reachable :
  reachable (H := specHelpers) (E := sampleEnv) (sampleProps (VObj []))
    attachments_form.
Proof.
  apply (run_all_reachable (sampleProps (VObj [])) attachments_calls
           (initialForm (sampleProps (VObj [])))); [apply reachable_init|].
  vm_compute. reflexivity.
Qed.

Lemma required_form_field :
  exists f : FieldInfo.t,
    getField (fields required_form) "a" = Some f
    /\ FieldInfo.fieldState f
       = FieldState.mk "id-0" (VStr "") (VStr "Required") false (VStr "")
           (Some (required_validator VUndefined VUndefined "a" VUndefined))
           1001.
Proof.
  eexists. split; vm_compute; reflexivity.
Qed.

Lemma spec_uuid_injective (i j : nat) : spec_uuid i = spec_uuid j -> i = j.
Proof.
  unfold spec_uuid, string_of_nat. intros Heq.
  apply (f_equal NilEmpty.uint_of_string) in Heq.
  rewrite !NilEmpty.usu in Heq. injection Heq as Heq.
  apply (f_equal Nat.of_uint) in Heq.
  now rewrite !Unsigned.of_to in Heq.
Qed.

(** An instance at [required_form]. *)
Lemma registry_names_unique_witness :
  reachable (H := specHelpers) (E := sampleEnv) (sampleProps (VObj []))
    required_form
  /\ NoDup (map FieldInfo.name (fields required_form)).
Proof.
  split; [exact required_form_reachable|].
  exact (proj1 (registry_names_unique _ _ required_form_reachable)).
Defined.

(** An instance at [required_form], for the name "a". *)
Lemma derived_stores_in_sync_witness :
  reachable (H := specHelpers) (E := sampleEnv) (sampleProps (VObj []))
    required_form
  /\ own_property (values (fields required_form)) "a" = Some (VStr "")
  /\ own_property (errors (fields required_form)) "a"
     = Some (VStr "Required").
Proof.
  split; [exact required_form_reachable|].
  destruct (derived_stores_in_sync _ required_form "a"
              required_form_reachable) as [Hv He].
  split; [rewrite Hv|rewrite He]; reflexivity.
Defined.

(** An instance at [attachments_form], which has no error. *)
Lemma valid_implies_currentStepValid_witness :
  reachable (H := specHelpers) (E := sampleEnv) (sampleProps (VObj []))
    attachments_form
  /\ valid (fields attachments_form) = true
  /\ currentStepValid attachments_form = true.
Proof.
  split; [exact attachments_form_reachable|].
  split; [reflexivity|].
  apply (valid_implies_currentStepValid _ _ attachments_form_reachable).
  reflexivity.
Defined.

(** An instance at [third_step_form]. *)
Lemma next_then_prev_witness :
  1 <= currentStep third_step_form
  /\ bind (formApi.changeStep (VStr "next") None)
       (fun _ => formApi.changeStep (VStr "prev") None) third_step_form
     = Ok (tt, third_step_form).
Proof.
  assert (Hstep : 1 <= currentStep third_step_form)
    by (vm_compute; discriminate).
  split; [exact Hstep|]. exact (next_then_prev _ None None Hstep).
Defined.

(** An instance at [third_step_form], for the type "prev". *)
Lemma changeStep_keeps_step_positive_witness :
  1 <= currentStep third_step_form
  /\ formApi.changeStep (VStr "prev") None third_step_form
     = Ok (tt, set_currentStep 2 third_step_form)
  /\ 1 <= currentStep (set_currentStep 2 third_step_form).
Proof.
  assert (Hstep : 1 <= currentStep third_step_form)
    by (vm_compute; discriminate).
  assert (Hrun : formApi.changeStep (VStr "prev") None third_step_form
                 = Ok (tt, set_currentStep 2 third_step_form))
    by reflexivity.
  split; [exact Hstep|]. split; [exact Hrun|].
  exact (changeStep_keeps_step_positive _ _ _ Hstep Hrun).
Defined.

(** An instance at [required_form]: clearing removes the error. *)
Lemma clear_resets_every_field_witness :
  NoDup (map FieldInfo.name (fields required_form))
  /\ is_nullish (Props.initialValues (props required_form)) = false
  /\ valid (fields required_form) = false
  /\ exists st' : Form,
       formApi.clear (E := sampleEnv) required_form = Ok (tt, st')
       /\ valid (fields st') = true.
Proof.
  assert (Hnd : NoDup (map FieldInfo.name (fields required_form)))
    by distinct_names.
  split; [exact Hnd|]. split; [reflexivity|]. split; [reflexivity|].
  destruct (clear_resets_every_field (E := sampleEnv) required_form Hnd
              eq_refl) as (st' & Hrun & _ & _ & _ & _ & Hvalid).
  exists st'. split; assumption.
Defined.

(** An instance at [uninitialised_form]. *)
Lemma clear_without_initialValues_witness :
  is_nullish (Props.initialValues (props uninitialised_form)) = true
  /\ fields uninitialised_form <> []
  /\ formApi.clear (E := sampleEnv) uninitialised_form = TypeError.
Proof.
  assert (Hfields : fields uninitialised_form <> [])
    by (vm_compute; discriminate).
  split; [reflexivity|]. split; [exact Hfields|].
  exact (proj2 (clear_without_initialValues (E := sampleEnv)
                  uninitialised_form eq_refl) Hfields).
Defined.

(** An instance at [required_form]: the error of "a" is evaluated again. *)
Lemma updateValidation_spec_witness :
  exists (f f' : FieldInfo.t) (st' : Form),
    getField (fields required_form) "a" = Some f
    /\ fieldApi.updateValidation (E := sampleEnv) "a" VUndefined required_form
       = Ok (tt, st')
    /\ getField (fields st') "a" = Some f'
    /\ FieldState.value (FieldInfo.fieldState f') = VStr ""
    /\ FieldState.error (FieldInfo.fieldState f') = VStr "Required".
Proof.
  destruct required_form_field as (f & Hget & Hold).
  destruct (updateValidation_spec (E := sampleEnv) required_form "a" f
              VUndefined Hget)
    as (st' & f' & Hrun & Hget' & _ & Hvalue & _ & Herror & _).
  rewrite Hold in Hvalue, Herror.
  exists f, f', st'.
  split; [exact Hget|]. split; [exact Hrun|]. split; [exact Hget'|].
  split; [exact Hvalue|].
  destruct (Herror eq_refl) as [Herr _]. exact Herr.
Defined.

(** An instance at [required_form]: the field "a" is disabled. *)
Lemma setDisabled_spec_witness :
  exists (f f' : FieldInfo.t) (st' : Form),
    getField (fields required_form) "a" = Some f
    /\ fieldApi.setDisabled "a" true required_form = Ok (tt, st')
    /\ getField (fields st') "a" = Some f'
    /\ FieldState.disabled (FieldInfo.fieldState f') = true.
Proof.
  destruct required_form_field as (f & Hget & Hold).
  destruct (setDisabled_spec required_form "a" f true Hget)
    as (st' & f' & Hrun & Hget' & Hdisabled & _).
  exists f, f', st'.
  split; [exact Hget|]. split; [exact Hrun|]. split; [exact Hget'|].
  exact Hdisabled.
Defined.

(** An instance at [required_form]: "x" is set twice. *)
Lemma setValue_again_is_skipped_witness :
  fieldApi.setValue (E := sampleEnv) "a" (VStr "x") false false required_form
  = Ok (VBool true, edited_form)
  /\ VBool true <> VUndefined
  /\ strict_equals false (VStr "x") (VStr "x") = true
  /\ fieldApi.setValue (E := sampleEnv) "a" (VStr "x") false false
       edited_form = Ok (VUndefined, edited_form).
Proof.
  assert (Hrun : fieldApi.setValue (E := sampleEnv) "a" (VStr "x") false
                   false required_form = Ok (VBool true, edited_form))
    by (vm_compute; reflexivity).
  assert (Hdone : VBool true <> VUndefined) by discriminate.
  split; [exact Hrun|]. split; [exact Hdone|]. split; [reflexivity|].
  exact (setValue_again_is_skipped (E := sampleEnv) _ _ _ _ _ _ _ false
           Hrun Hdone eq_refl).
Defined.

(** An instance at [required_form]: a field "b" is registered. *)
Lemma registerField_puts_field_last_witness :
  "b" <> ""
  /\ getField (fields required_form) "b" = None
  /\ exists (f : FieldInfo.t) (st' : Form),
       formApi.registerField (H := specHelpers) (E := sampleEnv) (Some "b")
         (VStr "text") VUndefined false VUndefined None required_form
       = Ok (Some f, st')
       /\ fields st' = (fields required_form ++ [f])%list
       /\ FieldState.fieldId (FieldInfo.fieldState f) = "id-1".
Proof.
  assert (Hname : "b" <> "") by discriminate.
  split; [exact Hname|]. split; [reflexivity|].
  destruct (registerField_puts_field_last (H := specHelpers)
              (E := sampleEnv) required_form "b" (VStr "text") VUndefined
              false VUndefined None Hname)
    as (f & st' & Hrun & _ & _ & _ & Hfresh).
  destruct (Hfresh eq_refl) as (Hfields & Hid & _).
  exists f, st'. split; [exact Hrun|]. split; [exact Hfields|]. exact Hid.
Defined.

(** An instance at [required_form]: a field is registered on step 0. *)
Lemma registerField_defaults_witness :
  "b" <> ""
  /\ exists (f : FieldInfo.t) (st' : Form),
       formApi.registerField (H := specHelpers) (E := sampleEnv) (Some "b")
         (VStr "text") VUndefined false VUndefined (Some 0) required_form
       = Ok (Some f, st')
       /\ FieldInfo.step f = 1
       /\ FieldState.defaultValue (FieldInfo.fieldState f) = VNull.
Proof.
  assert (Hname : "b" <> "") by discriminate.
  split; [exact Hname|].
  destruct (registerField_defaults (H := specHelpers) (E := sampleEnv)
              required_form "b" (VStr "text") VUndefined false VUndefined
              (Some 0) Hname)
    as (f & st' & Hrun & _ & Hstep & Hdefault & _).
  exists f, st'. split; [exact Hrun|]. split; [exact Hstep|exact Hdefault].
Defined.

(** An instance for a fresh form without validation: the empty string is
    written without the equality check. *)
Lemma disabled_validation_accepts_witness :
  "a" <> ""
  /\ Props.disableValidation (props (initialForm no_validation_props)) = true
  /\ exists (f : FieldInfo.t) (st1 : Form) (r : val) (f2 : FieldInfo.t)
            (st2 : Form),
       formApi.registerField (H := specHelpers) (E := sampleEnv) (Some "a")
         (VStr "text") VUndefined false VUndefined None
         (initialForm no_validation_props) = Ok (Some f, st1)
       /\ fieldApi.setValue (E := sampleEnv) "a" (VStr "") true false st1
          = Ok (r, st2)
       /\ r = VBool true
       /\ getField (fields st2) "a" = Some f2
       /\ FieldState.error (FieldInfo.fieldState f2) = VUndefined.
Proof.
  assert (Hname : "a" <> "") by discriminate.
  split; [exact Hname|]. split; [reflexivity|].
  destruct (disabled_validation_accepts (H := specHelpers) (E := sampleEnv)
              (initialForm no_validation_props) "a" (VStr "text") VUndefined
              false VUndefined None (VStr "") true false Hname eq_refl)
    as (f & st1 & r & f2 & st2 & Hreg & _ & Hset & Hcase & _ & Hget & _).
  simpl in Hcase. destruct Hcase as (Hr & _ & Herror).
  exists f, st1, r, f2, st2.
  split; [exact Hreg|]. split; [exact Hset|]. split; [exact Hr|].
  split; [exact Hget|exact Herror].
Defined.


(** An instance at [required_form], whose data context is computed. *)
Lemma dataContext_static_keys_witness :
  exists (provided : val) (context : obj),
    dataContext (H := specHelpers) required_form = Ok provided
    /\ provided = VObj context
    /\ own context "__valid" = Some (VBool false)
    /\ own context "__currentStep" = Some (VNum (Int 1)).
Proof.
  destruct (dataContext (H := specHelpers) required_form) as [provided|]
    eqn:Hrun; [|vm_compute in Hrun; discriminate].
  destruct (dataContext_static_keys (H := specHelpers) required_form
              provided Hrun)
    as (fv & context & _ & Hprovided & _ & Hvalid & Hstep & _).
  exists provided, context.
  split; [reflexivity|]. split; [exact Hprovided|].
  split; [exact Hvalid|exact Hstep].
Defined.

(** An instance at [unvalidated_form]. *)
Lemma validate_without_validators_witness :
  NoDup (map FieldInfo.name (fields unvalidated_form))
  /\ (forall f, In f (fields unvalidated_form) ->
                FieldState.validator (FieldInfo.fieldState f) = None)
  /\ exists st' : Form,
       formApi.validate (E := sampleEnv) false unvalidated_form
       = Ok (true, st')
       /\ valid (fields st') = true.
Proof.
  assert (Hnd : NoDup (map FieldInfo.name (fields unvalidated_form)))
    by distinct_names.
  assert (Hnone : forall f, In f (fields unvalidated_form) ->
            FieldState.validator (FieldInfo.fieldState f) = None).
  { intros f Hf. vm_compute in Hf.
    destruct Hf as [<-|[<-|[]]]; reflexivity. }
  split; [exact Hnd|]. split; [exact Hnone|].
  destruct (validate_without_validators (E := sampleEnv) unvalidated_form
              false Hnd Hnone) as (st' & Hrun & _ & Hvalid).
  exists st'. split; [exact Hrun|]. exact (Hvalid eq_refl).
Defined.

(** An instance for the sample form component. *)
Lemma extractComponentContext_sound_witness :
  is_nullish
    (SaveRow.extractComponentContext (B := sampleBuilder)
       sample_form_component (VStr "form")) = false
  /\ strict_equals false
       (prop (SaveRow.extractComponentContext (B := sampleBuilder)
                sample_form_component (VStr "form")) "type")
       (VStr "form") = true.
Proof.
  split; [reflexivity|].
  exact (proj1 (proj2 (extractComponentContext_sound (B := sampleBuilder)
                         sample_form_component (VStr "form") eq_refl))).
Defined.

(** An instance for the two sample components. *)
Lemma getProviderOptions_order_witness :
  exists options : list val,
    SaveRow.getProviderOptions (B := sampleBuilder) [sample_form_component]
      [sample_provider_component] = Ok options
    /\ List.length options = 2%nat.
Proof.
  destruct (SaveRow.getProviderOptions (B := sampleBuilder)
              [sample_form_component] [sample_provider_component])
    as [options|] eqn:Hrun; [|vm_compute in Hrun; discriminate].
  destruct (getProviderOptions_order (B := sampleBuilder) _ _ _ Hrun)
    as (fo & so & _ & _ & _ & Hlen).
  exists options. split; [reflexivity|exact Hlen].
Defined.

(** An instance for the sample data provider and its "schema" context. *)
Lemma providerOption_value_witness :
  prop sample_provider_component "_id" = VStr "c2"
  /\ SaveRow.providerOption (B := sampleBuilder) sample_provider_component
       (VObj [("type", VStr "schema"); ("suffix", VStr "rows")])
     = Ok (VObj [("label", VStr "Rows"); ("value", VStr "c2-rows")]).
Proof.
  split; [reflexivity|].
  assert (Hsuffix : "rows" <> "") by discriminate.
  exact (proj2 (providerOption_value (B := sampleBuilder)
                  sample_provider_component
                  (VObj [("type", VStr "schema"); ("suffix", VStr "rows")])
                  "c2" eq_refl eq_refl eq_refl) "rows" eq_refl Hsuffix).
Defined.

(** An instance at [attachments_form], with the numerals as identifiers. *)
Lemma fieldIds_unique_witness :
  (forall i j : nat, spec_uuid i = spec_uuid j -> i = j)
  /\ reachable (H := specHelpers) (E := sampleEnv) (sampleProps (VObj []))
       attachments_form
  /\ NoDup (map fieldId_of (fields attachments_form)).
Proof.
  split; [exact spec_uuid_injective|].
  split; [exact attachments_form_reachable|].
  exact (fieldIds_unique (H := specHelpers) (E := sampleEnv) _ _
           spec_uuid_injective attachments_form_reachable).
Defined.
